(** * Rollup configuration factory and README badge updater

    A shallow embedding of [tools/rollup/create-config.js] and of the
    [update-readme] plugin, with the properties their specification states.

    JavaScript strings are modelled as lists of characters ([list ascii]);
    every character the code inspects is ASCII.  The file system is a finite
    map from resolved paths to nodes.  The functions of Node and of the
    bundler's plug-ins that the code calls but does not define
    ([path.resolve], [JSON.parse], [zlib.gzipSync]) are section variables. *)

From Stdlib Require Import Ascii String List Arith Lia Bool NArith DecimalString.
From stdpp Require Import gmap strings list.

Import ListNotations.
Local Open Scope string_scope.
Local Open Scope list_scope.

(** ** JavaScript strings *)

Abbreviation jstring := (list ascii).

Definition js (s : string) : jstring := list_ascii_of_string s.

Module JsString.

(** [s.startsWith(p)] *)
Fixpoint startsWith (s p : jstring) {struct p} : bool :=
  match p, s with
  | [], _ => true
  | _ :: _, [] => false
  | a :: p', b :: s' => Ascii.eqb a b && startsWith s' p'
  end.

(** [a === b] on strings *)
Fixpoint eqb (a b : jstring) : bool :=
  match a, b with
  | [], [] => true
  | x :: a', y :: b' => Ascii.eqb x y && eqb a' b'
  | _, _ => false
  end.

(** [s.indexOf(p)]: the index of the first occurrence, [None] for -1 *)
Fixpoint indexOf (s p : jstring) : option nat :=
  if startsWith s p then Some 0
  else match s with
       | [] => None
       | _ :: s' => option_map S (indexOf s' p)
       end.

(** [s.slice(0, n)] and [s.slice(n)] for [0 <= n] *)
Definition slice_to (s : jstring) (n : nat) : jstring := firstn n s.
Definition slice_from (s : jstring) (n : nat) : jstring := skipn n s.

(** Truthiness of an optional string: [undefined] and [''] are falsy. *)
Definition truthy (o : option jstring) : bool :=
  match o with
  | Some (_ :: _) => true
  | _ => false
  end.

Definition is_lower (c : ascii) : bool :=
  Nat.leb 97 (nat_of_ascii c) && Nat.leb (nat_of_ascii c) 122.
Definition is_upper (c : ascii) : bool :=
  Nat.leb 65 (nat_of_ascii c) && Nat.leb (nat_of_ascii c) 90.
Definition is_letter (c : ascii) : bool := is_lower c || is_upper c.
Definition is_digit (c : ascii) : bool :=
  Nat.leb 48 (nat_of_ascii c) && Nat.leb (nat_of_ascii c) 57.

(** [c.toUpperCase()] on one ASCII character *)
Definition toUpperCase (c : ascii) : ascii :=
  if is_lower c then ascii_of_nat (nat_of_ascii c - 32) else c.

(** The characters the regular-expression dot does not match. *)
Definition is_line_terminator (c : ascii) : bool :=
  Ascii.eqb c "010"%char || Ascii.eqb c "013"%char.

End JsString.

Import JsString.

(** ** Exceptions and results *)

Inductive exn : Type :=
| JsError (message : jstring)        (* [new Error(message)] *)
| TypeError (message : jstring)      (* property access on [undefined] *)
| SyntaxError                        (* [JSON.parse] on malformed text *)
| FsError (code : jstring).          (* a failing [fs] call *)

Inductive result (A : Type) : Type :=
| Ok (a : A)
| Throw (e : exn).
Arguments Ok {A} a.
Arguments Throw {A} e.

Definition bind {A B : Type} (r : result A) (k : A -> result B) : result B :=
  match r with
  | Ok a => k a
  | Throw e => Throw e
  end.

Notation "'do' x <- r ; k" := (bind r (fun x => k))
  (at level 10, x name, r at level 100, k at level 200).

(** ** File system *)

Inductive node : Type :=
| File (content : jstring) (writable : bool)
| Dir.

Abbreviation filesystem := (gmap jstring node).

Definition existsSync (fs : filesystem) (path : jstring) : bool :=
  match fs !! path with
  | Some _ => true
  | None => false
  end.

Definition readFileSync (fs : filesystem) (path : jstring) : result jstring :=
  match fs !! path with
  | Some (File c _) => Ok c
  | Some Dir => Throw (FsError (js "EISDIR"))
  | None => Throw (FsError (js "ENOENT"))
  end.

Definition writeFileSync (fs : filesystem) (path content : jstring)
  : result filesystem :=
  match fs !! path with
  | Some (File _ true) => Ok (<[path := File content true]> fs)
  | Some (File _ false) => Throw (FsError (js "EACCES"))
  | Some Dir => Throw (FsError (js "EISDIR"))
  | None => Ok (<[path := File content true]> fs)
  end.

(** ** The package manifest

    The fields of [package.json] the code reads.  A JavaScript object used as
    a dictionary is an association list in insertion order. *)

Record Manifest : Type := {
  pkg_name : option jstring;
  pkg_version : option jstring;
  pkg_dependencies : option (list (jstring * jstring));
  pkg_peerDependencies : option (list (jstring * jstring))
}.

(** [Object.keys(o || {})] *)
Definition keys_or_empty (o : option (list (jstring * jstring))) : list jstring :=
  match o with
  | Some kvs => map fst kvs
  | None => []
  end.

(** ** Options, build steps and descriptors *)

(** A value of a TypeScript compiler option. *)
Inductive tsvalue : Type :=
| TsStr (s : jstring)
| TsBool (b : bool).

(** The argument of [createConfig]; [None] is an absent ([undefined]) key. *)
Record Options : Type := {
  packageDir : option jstring;
  input : option jstring;
  outputDir : option jstring;
  formats : option (list jstring);
  sourcemap : option bool;
  minify : option bool;
  dts : option bool;
  babel : option bool;
  browserslist : option (list jstring);
  external : option (list jstring);
  globals : option (list (jstring * jstring));
  name : option jstring;
  tsconfig : option (list (jstring * tsvalue))
}.

(** A build step, with the options the code passes to the plug-in factory. *)
Inductive plugin : Type :=
| NodeResolve (extensions : list jstring)
| CommonJs
| Json
| Typescript (ts_tsconfig : jstring) (declaration declarationMap sourceMap : bool)
             (compilerOptions : list (jstring * tsvalue))
| Babel (extensions : list jstring) (targets : option (list jstring))
| Terser (compress_ecma format_ecma : nat)
| Filesize
| UpdateReadme (dir : jstring)
| DtsPlugin (dts_tsconfig : jstring).

Record OutputConfig : Type := {
  out_dir : option jstring;
  out_format : jstring;
  out_sourcemap : option bool;
  out_preserveModules : option bool;
  out_preserveModulesRoot : option jstring;
  out_exports : option jstring;
  out_entryFileNames : option jstring;
  out_chunkFileNames : option jstring;
  out_file : option jstring;
  out_name : option jstring;
  out_globals : option (list (jstring * jstring))
}.

Record Descriptor : Type := {
  d_input : jstring;
  d_output : OutputConfig;
  d_external : jstring -> bool;
  d_plugins : list plugin
}.

(** [x === undefined ? d : x], the default of a destructured key *)
Definition default {A : Type} (d : A) (o : option A) : A :=
  match o with
  | Some a => a
  | None => d
  end.

(** [[...].filter(Boolean)] on a list whose falsy entries are [None] *)
Definition filter_Boolean {A : Type} (l : list (option A)) : list A :=
  omap id l.

(** [{...base, ...over}] read as a list of entries: an entry of [base]
    keeps its place and takes the value [over] gives its key, and the keys
    only [over] has follow in their order. *)
Fixpoint assoc {V : Type} (k : jstring) (l : list (jstring * V)) : option V :=
  match l with
  | [] => None
  | (k', v) :: l' => if JsString.eqb k k' then Some v else assoc k l'
  end.

Fixpoint set_key {V : Type} (k : jstring) (v : V) (l : list (jstring * V))
  : list (jstring * V) :=
  match l with
  | [] => [(k, v)]
  | (k', v') :: l' =>
      if JsString.eqb k k' then (k', v) :: l' else (k', v') :: set_key k v l'
  end.

Definition spread {V : Type} (base over : list (jstring * V))
  : list (jstring * V) :=
  fold_left (fun acc kv => set_key (fst kv) (snd kv) acc) over base.

(** ** Name derivation *)

(** The part of [line] after its last ['/'], when it has one. *)
Fixpoint after_last_slash (line : jstring) : option jstring :=
  match line with
  | [] => None
  | c :: t =>
      match after_last_slash t with
      | Some r => Some r
      | None => if Ascii.eqb c "/"%char then Some t else None
      end
  end.

(** The longest prefix the regular-expression dot can run over. *)
Fixpoint dot_run (s : jstring) : jstring :=
  match s with
  | [] => []
  | c :: t => if is_line_terminator c then [] else c :: dot_run t
  end.

(** [s.replace(/^@.*\//, '')]: the greedy [.*] stops at the first line
    terminator and backtracks to the last ['/'] before it. *)
Definition replace_scope (s : jstring) : jstring :=
  match s with
  | "@"%char :: rest =>
      let line := dot_run rest in
      match after_last_slash line with
      | Some r => r ++ skipn (length line) rest
      | None => s
      end
  | _ => s
  end.

Definition is_separator (c : ascii) : bool :=
  Ascii.eqb c "-"%char || Ascii.eqb c "_"%char.

(** [s.replace(/[-_](.)/g, (_, c) => c.toUpperCase())] *)
Fixpoint replace_separators (s : jstring) : jstring :=
  match s with
  | [] => []
  | c :: t =>
      match t with
      | d :: t' =>
          if is_separator c && negb (is_line_terminator d)
          then toUpperCase d :: replace_separators t'
          else c :: replace_separators t
      | [] => [c]
      end
  end.

(** [s.replace(/^(.)/, (_, c) => c.toUpperCase())] *)
Definition replace_first (s : jstring) : jstring :=
  match s with
  | c :: t => if is_line_terminator c then s else toUpperCase c :: t
  | [] => []
  end.

Definition toPascalCase (str : jstring) : jstring :=
  replace_first (replace_separators str).

(** ** Externality *)

(** [/^[a-zA-Z]:/.test(id)] *)
Definition drive_letter (id : jstring) : bool :=
  match id with
  | c :: ":"%char :: _ => is_letter c
  | _ => false
  end.

Definition externalDeps (pkg : Manifest) (additionalExternal : list jstring)
  : list jstring :=
  keys_or_empty (pkg_dependencies pkg)
  ++ keys_or_empty (pkg_peerDependencies pkg)
  ++ additionalExternal.

Definition isExternal (deps : list jstring) (id : jstring) : bool :=
  if startsWith id (js ".") || startsWith id (js "/") || drive_letter id
  then false
  else existsb (fun dep => JsString.eqb id dep || startsWith id (dep ++ js "/")) deps.

(** ** The configuration assembler, [createConfig] *)

Section Assembler.

(** [path.resolve(a, b)] and [JSON.parse] ([None]: a [SyntaxError]). *)
Variable resolve : jstring -> jstring -> jstring.
Variable JSON_parse : jstring -> option Manifest.

Definition getPackageJson (fs : filesystem) (dir : jstring) : result Manifest :=
  let pkgPath := resolve dir (js "package.json") in
  if negb (existsSync fs pkgPath)
  then Throw (JsError (js "package.json not found in " ++ dir))
  else
    do text <- readFileSync fs pkgPath;
    match JSON_parse text with
    | Some pkg => Ok pkg
    | None => Throw SyntaxError
    end.

Definition getTsConfigPath (fs : filesystem) (dir : jstring) : jstring :=
  let buildTsConfig := resolve dir (js "tsconfig.build.json") in
  if existsSync fs buildTsConfig then buildTsConfig
  else
    let pkgTsConfig := resolve dir (js "tsconfig.json") in
    if existsSync fs pkgTsConfig then pkgTsConfig
    else resolve dir (js "../../tsconfig.json").

Definition is_esm (format : jstring) : bool :=
  JsString.eqb format (js "esm") || JsString.eqb format (js "es").
Definition is_cjs (format : jstring) : bool := JsString.eqb format (js "cjs").
Definition is_umd_or_iife (format : jstring) : bool :=
  JsString.eqb format (js "umd") || JsString.eqb format (js "iife").

Section WithOptions.

Variable options : Options.
(** [process.env.ROLLUP_WATCH] *)
Variable ROLLUP_WATCH : option jstring.
Variable fs : filesystem.
(** the [packageDir] that passed the check, and the manifest read *)
Variable dir : jstring.
Variable pkg : Manifest.

Definition generateDts : bool := default true (dts options).
Definition enableBabel : bool := default true (babel options).
Definition additionalExternal : list jstring := default [] (external options).
Definition additionalTsConfig : list (jstring * tsvalue) :=
  default [] (tsconfig options).
Definition the_formats : list jstring :=
  default [js "esm"; js "cjs"] (formats options).
Definition the_sourcemap : bool := default true (sourcemap options).

Definition tsConfigPath : jstring := getTsConfigPath fs dir.
Definition inputPath : jstring :=
  resolve dir (default (js "src/index.ts") (input options)).
Definition outputPath : jstring :=
  resolve dir (default (js "dist") (outputDir options)).

Definition basePlugins : list plugin :=
  filter_Boolean
    [ Some (NodeResolve [js ".ts"; js ".tsx"; js ".js"; js ".jsx"; js ".json"]);
      Some CommonJs;
      Some Json;
      Some (Typescript tsConfigPath false false the_sourcemap
              (spread [ (js "target", TsStr (js "ESNext"));
                        (js "outDir", TsStr outputPath);
                        (js "rootDir", TsStr (resolve dir (js "src"))) ]
                      additionalTsConfig));
      if enableBabel
      then Some (Babel [js ".ts"; js ".tsx"; js ".js"; js ".jsx"]
                       (browserslist options))
      else None ].

Definition minifyPlugin : option plugin :=
  if default true (minify options) then Some (Terser 2018 2018) else None.

(** The body of the [if]/[else if] chain on the format. *)
Definition outputConfig (format : jstring) : result OutputConfig :=
  let base :=
    {| out_dir := Some outputPath;
       out_format := format;
       out_sourcemap := Some the_sourcemap;
       out_preserveModules :=
         Some (negb (JsString.eqb format (js "umd"))
               && negb (JsString.eqb format (js "iife")));
       out_preserveModulesRoot := Some (resolve dir (js "src"));
       out_exports := Some (js "named");
       out_entryFileNames := None;
       out_chunkFileNames := None;
       out_file := None;
       out_name := None;
       out_globals := None |} in
  if is_esm format then
    Ok {| out_dir := out_dir base; out_format := format;
          out_sourcemap := out_sourcemap base;
          out_preserveModules := out_preserveModules base;
          out_preserveModulesRoot := out_preserveModulesRoot base;
          out_exports := out_exports base;
          out_entryFileNames := Some (js "[name].mjs");
          out_chunkFileNames := Some (js "[name]-[hash].mjs");
          out_file := None; out_name := None; out_globals := None |}
  else if is_cjs format then
    Ok {| out_dir := out_dir base; out_format := format;
          out_sourcemap := out_sourcemap base;
          out_preserveModules := out_preserveModules base;
          out_preserveModulesRoot := out_preserveModulesRoot base;
          out_exports := out_exports base;
          out_entryFileNames := Some (js "[name].cjs");
          out_chunkFileNames := Some (js "[name]-[hash].cjs");
          out_file := None; out_name := None; out_globals := None |}
  else if is_umd_or_iife format then
    do exposed <-
      (if truthy (name options) then Ok (default [] (name options))
       else match pkg_name pkg with
            | Some n => Ok (toPascalCase (replace_scope n))
            | None =>
                Throw (TypeError
                  (js "Cannot read properties of undefined (reading 'replace')"))
            end);
    Ok {| out_dir := None; out_format := format;
          out_sourcemap := out_sourcemap base;
          out_preserveModules := Some false;
          out_preserveModulesRoot := out_preserveModulesRoot base;
          out_exports := out_exports base;
          out_entryFileNames := None;
          out_chunkFileNames := None;
          out_file :=
            Some (resolve outputPath
                    (js "index."
                     ++ (if JsString.eqb format (js "umd")
                         then js "umd" else js "iife")
                     ++ js ".js"));
          out_name := Some exposed;
          out_globals := Some (default [] (globals options)) |}
  else Ok base.

Definition format_plugins (format : jstring) : list plugin :=
  filter_Boolean
    (map Some basePlugins
     ++ [ minifyPlugin;
          Some Filesize;
          if is_esm format && negb (truthy ROLLUP_WATCH)
          then Some (UpdateReadme dir) else None ]).

Definition the_isExternal : jstring -> bool :=
  isExternal (externalDeps pkg additionalExternal).

(** One turn of [formats.forEach]. *)
Definition format_descriptor (format : jstring) : result Descriptor :=
  do out <- outputConfig format;
  Ok {| d_input := inputPath;
        d_output := out;
        d_external := the_isExternal;
        d_plugins := format_plugins format |}.

(** [formats.forEach(...)], pushing onto [configs]; a throw leaves it. *)
Fixpoint forEach_format (fmts : list jstring) (configs : list Descriptor)
  : result (list Descriptor) :=
  match fmts with
  | [] => Ok configs
  | format :: rest =>
      do d <- format_descriptor format;
      forEach_format rest (configs ++ [d])
  end.

Definition dts_descriptor : Descriptor :=
  {| d_input := inputPath;
     d_output :=
       {| out_dir := None; out_format := js "esm";
          out_sourcemap := None; out_preserveModules := None;
          out_preserveModulesRoot := None; out_exports := None;
          out_entryFileNames := None; out_chunkFileNames := None;
          out_file := Some (resolve outputPath (js "index.d.ts"));
          out_name := None; out_globals := None |};
     d_external := the_isExternal;
     d_plugins := [DtsPlugin tsConfigPath] |}.

Definition assemble_configs : result (list Descriptor) :=
  do configs <- forEach_format the_formats [];
  Ok (if generateDts then configs ++ [dts_descriptor] else configs).

End WithOptions.

Definition createConfig (options : Options) (ROLLUP_WATCH : option jstring)
    (fs : filesystem) : result (list Descriptor) :=
  if negb (truthy (packageDir options))
  then Throw (JsError (js "packageDir is required"))
  else
    let dir := default [] (packageDir options) in
    do pkg <- getPackageJson fs dir;
    assemble_configs options ROLLUP_WATCH fs dir pkg.

End Assembler.

(** ** Regular expressions and string surgery of the badge updater *)

Module Badge.

(** Both badge patterns have the shape [prefix [^)]+ \)] for a literal
    [prefix].  [match_at prefix s] is the length of the match that starts
    at the head of [s]: the class is greedy and a shorter run is never
    followed by [')'], so the match, when there is one, is unique. *)
Definition not_close (c : ascii) : bool := negb (Ascii.eqb c ")"%char).

Fixpoint class_run (s : jstring) : jstring :=
  match s with
  | [] => []
  | c :: t => if not_close c then c :: class_run t else []
  end.

Definition match_at (prefix s : jstring) : option nat :=
  if startsWith s prefix then
    let rest := skipn (length prefix) s in
    let body := class_run rest in
    match body, skipn (length body) rest with
    | _ :: _, ")"%char :: _ => Some (length prefix + length body + 1)
    | _, _ => None
    end
  else None.

(** [regex.exec(s)]: index and length of the leftmost match *)
Fixpoint exec (prefix s : jstring) : option (nat * nat) :=
  match match_at prefix s with
  | Some n => Some (0, n)
  | None =>
      match s with
      | [] => None
      | _ :: t => option_map (fun '(i, n) => (S i, n)) (exec prefix t)
      end
  end.

(** [regex.test(s)] *)
Definition test (prefix s : jstring) : bool :=
  match exec prefix s with
  | Some _ => true
  | None => false
  end.

(** The replacement text of [String.prototype.replace] for a pattern with
    no capture group: [$$], [$&], [$`] and [$'] are expanded, every other
    character stands for itself. *)
Fixpoint substitution (repl before matched after : jstring) : jstring :=
  match repl with
  | [] => []
  | c :: r =>
      match r with
      | d :: r' =>
          if Ascii.eqb c "$"%char then
            if Ascii.eqb d "$"%char
            then "$"%char :: substitution r' before matched after
            else if Ascii.eqb d "&"%char
            then matched ++ substitution r' before matched after
            else if Ascii.eqb d "`"%char
            then before ++ substitution r' before matched after
            else if Ascii.eqb d "'"%char
            then after ++ substitution r' before matched after
            else c :: substitution r before matched after
          else c :: substitution r before matched after
      | [] => [c]
      end
  end.

(** [s.replace(regex, repl)], the pattern without the [g] flag *)
Definition replace (prefix repl s : jstring) : jstring :=
  match exec prefix s with
  | Some (i, n) =>
      let before := firstn i s in
      let matched := firstn n (skipn i s) in
      let after := skipn (i + n) s in
      before ++ substitution repl before matched after ++ after
  | None => s
  end.

Definition LF : ascii := "010"%char.
Definition CR : ascii := "013"%char.

(** [s.split(/\r?\n/)] *)
Fixpoint split_lines (s : jstring) : list jstring :=
  match s with
  | [] => [[]]
  | c :: t =>
      if Ascii.eqb c LF then [] :: split_lines t
      else if Ascii.eqb c CR && startsWith t [LF] then split_lines t
      else match split_lines t with
           | l :: ls => (c :: l) :: ls
           | [] => [[c]]
           end
  end.

(** [lines.findIndex(p)], [None] for -1 *)
Fixpoint findIndex {A : Type} (p : A -> bool) (l : list A) : option nat :=
  match l with
  | [] => None
  | x :: l' => if p x then Some 0 else option_map S (findIndex p l')
  end.

(** [lines.splice(i, 0, x)], in place *)
Definition splice_insert {A : Type} (i : nat) (x : A) (l : list A) : list A :=
  firstn i l ++ x :: skipn i l.

(** [lines.join('\n')] *)
Fixpoint join (l : list jstring) : jstring :=
  match l with
  | [] => []
  | [x] => x
  | x :: l' => x ++ LF :: join l'
  end.

End Badge.

(** ** The README badge updater, [updateReadmePlugin(packageDir).writeBundle] *)

(** An entry of the bundle: a code chunk or an asset. *)
Inductive emitted : Type :=
| Chunk (code : jstring)
| Asset.

(** What [console.error(message, e)] writes to the standard error stream. *)
Record World : Type := {
  w_fs : filesystem;
  w_stderr : list (jstring * exn)
}.

(** [try { body } catch (e) { handler(e) }] *)
Definition try_catch {A : Type} (body : result A) (handler : exn -> result A)
  : result A :=
  match body with
  | Ok a => Ok a
  | Throw e => handler e
  end.

Definition digit (d : N) : ascii := ascii_of_N (48 + d).

Definition decimal (n : N) : jstring :=
  list_ascii_of_string (NilZero.string_of_uint (N.to_uint n)).

(** [(size / 1024).toFixed(2)]: the quotient is exact in binary floating
    point for a byte count below 2^53, and [toFixed] rounds it to the nearest
    hundredth, a tie going up. *)
Definition toFixed2_div1024 (size : N) : jstring :=
  let n := ((200 * size + 1024) / 2048)%N in
  decimal (n / 100) ++ "."%char :: [digit ((n mod 100) / 10); digit (n mod 10)].

Definition versionPrefix : jstring :=
  js "![version](https://img.shields.io/badge/Version-".
Definition sizePrefix : jstring :=
  js "![minzipped size](https://img.shields.io/badge/minzipped%20size-".

(** The template literal's rendering of [pkg.version]. *)
Definition template (v : option jstring) : jstring := default (js "undefined") v.

Definition versionBadge (version : option jstring) : jstring :=
  versionPrefix ++ template version ++ js "-blue)".
Definition sizeBadge (sizeStr : jstring) : jstring :=
  sizePrefix ++ sizeStr ++ js "-success)".

(** The [// Update Version] block. *)
Definition update_version (vBadge content : jstring) : jstring :=
  if Badge.test versionPrefix content
  then Badge.replace versionPrefix vBadge content
  else
    let lines := Badge.split_lines content in
    let lines' :=
      match Badge.findIndex (fun line => startsWith line (js "# ")) lines with
      | Some titleIndex => Badge.splice_insert (titleIndex + 1) (Badge.LF :: vBadge) lines
      | None => (vBadge ++ [Badge.LF]) :: lines
      end in
    Badge.join lines'.

(** The [// Update Size] block. *)
Definition update_size (vBadge sBadge content : jstring) : jstring :=
  if Badge.test sizePrefix content
  then Badge.replace sizePrefix sBadge content
  else
    match indexOf content vBadge with
    | Some vIndex =>
        slice_to content (vIndex + length vBadge)
        ++ " "%char :: sBadge
        ++ slice_from content (vIndex + length vBadge)
    | None => content
    end.

Section Updater.

Variable resolve : jstring -> jstring -> jstring.
Variable JSON_parse : jstring -> option Manifest.
(** [gzipSync(Buffer.from(code)).length] *)
Variable gzip_length : jstring -> N.

Definition total_size (bundle : list emitted) : N :=
  fold_left (fun size chunk =>
               match chunk with
               | Chunk code => (size + gzip_length code)%N
               | Asset => size
               end) bundle 0%N.

Definition new_content (pkg : Manifest) (bundle : list emitted)
    (content : jstring) : jstring :=
  let sizeStr := toFixed2_div1024 (total_size bundle) ++ js "kB" in
  let vBadge := versionBadge (pkg_version pkg) in
  let sBadge := sizeBadge sizeStr in
  update_size vBadge sBadge (update_version vBadge content).

(** The [try] block. *)
Definition update_body (dir : jstring) (bundle : list emitted)
    (fs : filesystem) : result filesystem :=
  let readmePath := resolve dir (js "README.md") in
  let pkgPath := resolve dir (js "package.json") in
  do text <- readFileSync fs pkgPath;
  do pkg <- match JSON_parse text with
            | Some pkg => Ok pkg
            | None => Throw SyntaxError
            end;
  do content <- readFileSync fs readmePath;
  writeFileSync fs readmePath (new_content pkg bundle content).

Definition writeBundle (dir : jstring) (bundle : list emitted) (w : World)
  : result World :=
  let readmePath := resolve dir (js "README.md") in
  let pkgPath := resolve dir (js "package.json") in
  if negb (existsSync (w_fs w) readmePath) || negb (existsSync (w_fs w) pkgPath)
  then Ok w
  else
    try_catch
      (do fs' <- update_body dir bundle (w_fs w);
       Ok {| w_fs := fs'; w_stderr := w_stderr w |})
      (fun e =>
         Ok {| w_fs := w_fs w;
               w_stderr := w_stderr w
                           ++ [(js "Failed to update README badges:", e)] |}).

End Updater.

(** ** Example inputs *)

(** A [path.resolve] for paths that need no normalisation. *)
Definition resolve_join (a b : jstring) : jstring := a ++ "/"%char :: b.

Definition demo_manifest : Manifest :=
  {| pkg_name := Some (js "@scope/my-lib");
     pkg_version := Some (js "1.2.3");
     pkg_dependencies := Some [(js "a", js "1")];
     pkg_peerDependencies := Some [(js "b", js "1")] |}.

(** A [JSON.parse] that knows one manifest text. *)
Definition parse_demo (text : jstring) : option Manifest :=
  if JsString.eqb text (js "{demo}") then Some demo_manifest else None.

Definition demo_fs : filesystem :=
  {[ js "/pkg/package.json" := File (js "{demo}") true;
     js "/pkg/README.md" := File (js "# my-lib") true ]}.

Definition no_options : Options :=
  {| packageDir := None; input := None; outputDir := None; formats := None;
     sourcemap := None; minify := None; dts := None; babel := None;
     browserslist := None; external := None; globals := None; name := None;
     tsconfig := None |}.

Definition with_dir (dir : jstring) (o : Options) : Options :=
  {| packageDir := Some dir; input := input o; outputDir := outputDir o;
     formats := formats o; sourcemap := sourcemap o; minify := minify o;
     dts := dts o; babel := babel o; browserslist := browserslist o;
     external := external o; globals := globals o; name := name o;
     tsconfig := tsconfig o |}.

Definition with_formats (f : list jstring) (o : Options) : Options :=
  {| packageDir := packageDir o; input := input o; outputDir := outputDir o;
     formats := Some f; sourcemap := sourcemap o; minify := minify o;
     dts := dts o; babel := babel o; browserslist := browserslist o;
     external := external o; globals := globals o; name := name o;
     tsconfig := tsconfig o |}.

Definition with_external (e : list jstring) (o : Options) : Options :=
  {| packageDir := packageDir o; input := input o; outputDir := outputDir o;
     formats := formats o; sourcemap := sourcemap o; minify := minify o;
     dts := dts o; babel := babel o; browserslist := browserslist o;
     external := Some e; globals := globals o; name := name o;
     tsconfig := tsconfig o |}.

Definition with_tsconfig (t : list (jstring * tsvalue)) (o : Options) : Options :=
  {| packageDir := packageDir o; input := input o; outputDir := outputDir o;
     formats := formats o; sourcemap := sourcemap o; minify := minify o;
     dts := dts o; babel := babel o; browserslist := browserslist o;
     external := external o; globals := globals o; name := name o;
     tsconfig := Some t |}.

Definition demo_options : Options :=
  with_external [js "c"] (with_dir (js "/pkg") no_options).

(** ** Vocabulary of the specification *)

(** A specifier that is relative, absolute or rooted at a drive letter. *)
Definition rooted (id : jstring) : Prop :=
  (exists r, id = "."%char :: r)
  \/ (exists r, id = "/"%char :: r)
  \/ (exists c r, id = c :: ":"%char :: r /\ is_letter c = true).

(** [id] is [dep] itself or a path below it. *)
Definition names_dependency (id dep : jstring) : Prop :=
  id = dep \/ exists rest, id = dep ++ "/"%char :: rest.

(** A manifest with no [name], and a parser that also knows its text. *)
Definition nameless_manifest : Manifest :=
  {| pkg_name := None;
     pkg_version := Some (js "0.1.0");
     pkg_dependencies := None;
     pkg_peerDependencies := None |}.


Definition nameless_fs : filesystem :=
  {[ js "/anon/package.json" := File (js "{nameless}") true ]}.





(** ** The PascalCase rule, as the specification words it *)

(** Strip a leading [@scope/] segment: for a name that starts with ['@'],
    everything up to and including the first ['/']. *)
Fixpoint after_first_slash (s : jstring) : option jstring :=
  match s with
  | [] => None
  | c :: t => if Ascii.eqb c "/"%char then Some t else after_first_slash t
  end.

Definition strip_scope_rule (n : jstring) : jstring :=
  match n with
  | "@"%char :: rest => default n (after_first_slash rest)
  | _ => n
  end.

(** Uppercase the character that follows a ['-'] or ['_'] and remove that
    separator (uppercasing leaves a character that is no lowercase letter
    as it is). *)
Fixpoint join_words_rule (s : jstring) : jstring :=
  match s with
  | [] => []
  | c :: t =>
      match t with
      | d :: t' =>
          if is_separator c then toUpperCase d :: join_words_rule t'
          else c :: join_words_rule t
      | [] => [c]
      end
  end.

(** Uppercase the first letter. *)
Definition upper_first_rule (s : jstring) : jstring :=
  match s with
  | c :: t => toUpperCase c :: t
  | [] => []
  end.

Definition pascal_case_rule (n : jstring) : jstring :=
  upper_first_rule (join_words_rule (strip_scope_rule n)).

(** The shape of a package name: one line, with at most one ['/'] (the one
    that ends the scope). *)
Definition one_line (s : jstring) : bool :=
  forallb (fun c => negb (is_line_terminator c)) s.

Definition slashes (s : jstring) : nat :=
  length (List.filter (fun c => Ascii.eqb c "/"%char) s).



(** A package whose manifest text does not parse, and one whose README
    cannot be written. *)
Definition broken_fs : filesystem :=
  {[ js "/pkg/package.json" := File (js "{") true;
     js "/pkg/README.md" := File (js "# my-lib") true ]}.

Definition readonly_fs : filesystem :=
  {[ js "/pkg/package.json" := File (js "{demo}") true;
     js "/pkg/README.md" := File (js "# my-lib") false ]}.

(** [gzipSync] stand-in for the examples: no compression. *)
Definition gzip_identity (code : jstring) : N := N.of_nat (length code).

Definition world_of (fs : filesystem) : World := {| w_fs := fs; w_stderr := [] |}.


(** ** Counting badges *)

(** [occurs p s]: the text [p] occurs somewhere in [s]. *)
Fixpoint occurs (p s : jstring) : bool :=
  startsWith s p
  || match s with
     | [] => false
     | _ :: t => occurs p t
     end.

(** No occurrence of [p] in [a ++ b] starts inside [a]. *)
Fixpoint starts_nowhere (p a b : jstring) : bool :=
  match a with
  | [] => true
  | _ :: a' => negb (startsWith (a ++ b) p) && starts_nowhere p a' b
  end.

(** The number of positions of [s] at which the badge pattern with the
    literal [prefix] matches. *)
Fixpoint count_matches (prefix s : jstring) : nat :=
  (match Badge.match_at prefix s with Some _ => 1 | None => 0 end)
  + match s with
    | [] => 0
    | _ :: t => count_matches prefix t
    end.

(** The characters of a semantic version (and of [undefined]). *)
Definition version_char (c : ascii) : bool :=
  is_letter c || is_digit c || Ascii.eqb c "."%char || Ascii.eqb c "-"%char
  || Ascii.eqb c "+"%char.

Definition plain_version (v : jstring) : bool := forallb version_char v.

Definition BANG : ascii := "!"%char.
Definition no_bang (s : jstring) : bool := forallb (fun c => negb (Ascii.eqb c BANG)) s.
Definition no_close (s : jstring) : bool := forallb Badge.not_close s.
Definition no_dollar (s : jstring) : bool :=
  forallb (fun c => negb (Ascii.eqb c "$"%char)) s.
Definition no_lf (s : jstring) : bool :=
  forallb (fun c => negb (Ascii.eqb c Badge.LF)) s.


(** A match found [k] characters further on. *)
Definition shift (k : nat) (m : nat * nat) : nat * nat := (k + fst m, snd m).


(** [a] is made of lines of [content]: a text without line feed that does
    not occur in [content] does not occur in [a]. *)
Definition inherits (content a : jstring) : Prop :=
  forall p, p <> [] -> ~ In Badge.LF p -> occurs p content = false ->
            occurs p a = false.


(** The characters of a formatted size. *)
Definition size_char (c : ascii) : bool :=
  is_digit c || Ascii.eqb c "."%char || is_letter c.






(** READMEs for the three cases of the size step. *)
Definition demo_version_badge : jstring := versionBadge (Some (js "1.2.3")).

Definition readme_with_size : jstring :=
  js "# lib " ++ sizeBadge (js "9.99kB") ++ js " end".
Definition readme_with_version : jstring :=
  js "# lib " ++ demo_version_badge ++ js " end".
Definition readme_plain : jstring := js "# lib".


(** ** The single-output wrapper, [createSimpleConfig]

    [options.format] is a key [createConfig] does not read; it is passed
    beside the options record. *)

Definition simple_options (format : option jstring) (o : Options) : Options :=
  {| packageDir := packageDir o; input := input o; outputDir := outputDir o;
     formats := Some [if truthy format then default [] format else js "esm"];
     sourcemap := sourcemap o; minify := minify o;
     dts := Some false; babel := babel o; browserslist := browserslist o;
     external := external o; globals := globals o; name := name o;
     tsconfig := tsconfig o |}.

(** [configs[0]] is [undefined] ([None]) on an empty array. *)
Definition createSimpleConfig (resolve : jstring -> jstring -> jstring)
    (JSON_parse : jstring -> option Manifest)
    (options : Options) (format : option jstring)
    (ROLLUP_WATCH : option jstring) (fs : filesystem)
  : result (option Descriptor) :=
  do configs <- createConfig resolve JSON_parse (simple_options format options)
                  ROLLUP_WATCH fs;
  Ok (nth_error configs 0).

Definition with_dts (b : bool) (o : Options) : Options :=
  {| packageDir := packageDir o; input := input o; outputDir := outputDir o;
     formats := formats o; sourcemap := sourcemap o; minify := minify o;
     dts := Some b; babel := babel o; browserslist := browserslist o;
     external := external o; globals := globals o; name := name o;
     tsconfig := tsconfig o |}.


(** ** Vocabulary of the further properties *)

(** What [s.split(/\r?\n/).join('\n')] does to a text, said directly: a
    carriage return that a line feed follows is dropped. *)
Fixpoint normalize_newlines (s : jstring) : jstring :=
  match s with
  | [] => []
  | c :: t =>
      if Ascii.eqb c Badge.CR && startsWith t [Badge.LF]
      then normalize_newlines t
      else c :: normalize_newlines t
  end.

(** The compressed sizes of the code chunks of a bundle. *)
Definition chunk_sizes (gzip_length : jstring -> N) (bundle : list emitted)
  : list N :=
  omap (fun e => match e with
                 | Chunk code => Some (gzip_length code)
                 | Asset => None
                 end) bundle.

Definition sum_N (l : list N) : N := fold_right N.add 0%N l.

(** The hundredths [toFixed2_div1024] prints. *)
Definition hundredths (size : N) : N := ((200 * size + 1024) / 2048)%N.

(** A name made of lowercase words: letters, each separator followed by a
    letter. *)
Fixpoint word_name (s : jstring) : bool :=
  match s with
  | [] => true
  | c :: t =>
      (is_lower c
       || (is_separator c && match t with d :: _ => is_lower d | [] => false end))
      && word_name t
  end.

Definition all_letters (s : jstring) : bool := forallb is_letter s.


(** The example package with a [tsconfig.json] of its own. *)
Definition tsconfig_fs : filesystem :=
  <[ js "/pkg/tsconfig.json" := File (js "{}") true ]> demo_fs.

(** A package whose [package.json] is a directory. *)
Definition dir_manifest_fs : filesystem :=
  {[ js "/pkg/package.json" := Dir ]}.

(** The project file of a build step, when it has one. *)
Definition project_file (p : plugin) : option jstring :=
  match p with
  | Typescript t _ _ _ _ => Some t
  | DtsPlugin t => Some t
  | _ => None
  end.


(** Reading a printed size back: the number of hundredths in
    [<digits>.<digit><digit>]. *)
Definition digit_value (c : ascii) : N := (N_of_ascii c - 48)%N.

Definition read_decimal (s : jstring) : option N :=
  option_map N.of_uint (NilZero.uint_of_string (string_of_list_ascii s)).

Definition read_hundredths (s : jstring) : option N :=
  match rev s with
  | d2 :: d1 :: dot :: whole =>
      if Ascii.eqb dot "."%char
      then option_map
             (fun i => (i * 100 + digit_value d1 * 10 + digit_value d2)%N)
             (read_decimal (rev whole))
      else None
  | _ => None
  end.


(** A README with carriage-return line endings around an old badge. *)
Definition crlf_readme : jstring :=
  js "a" ++ Badge.CR :: Badge.LF :: demo_version_badge
  ++ Badge.CR :: Badge.LF :: js "b".


(** * Properties *)

(** ** Strings *)

Lemma eqb_true_iff (a b : jstring) : JsString.eqb a b = true <-> a = b.
Proof.
  revert b; induction a as [|x a IH]; intros [|y b]; simpl;
    try (split; [discriminate | congruence]); try tauto.
  rewrite andb_true_iff, Ascii.eqb_eq, IH.
  split; [intros [-> ->]; reflexivity | intros [= -> ->]; auto].
Qed.

Lemma eqb_refl (a : jstring) : JsString.eqb a a = true.
Proof. apply eqb_true_iff; reflexivity. Qed.

Lemma startsWith_iff (s p : jstring) :
  startsWith s p = true <-> exists r, s = p ++ r.
Proof.
  revert s; induction p as [|a p IH]; intros s; simpl.
  - destruct s; split; eauto.
  - destruct s as [|b s].
    + split; [discriminate | intros [r Hr]; discriminate].
    + simpl. rewrite andb_true_iff, Ascii.eqb_eq, IH. split.
      * intros [-> [r ->]]. eauto.
      * intros [r [= -> ->]]. eauto.
Qed.

Lemma startsWith_app (p r : jstring) : startsWith (p ++ r) p = true.
Proof. apply startsWith_iff; eauto. Qed.

Lemma drive_letter_iff (id : jstring) :
  drive_letter id = true <->
  exists c rest, id = c :: ":"%char :: rest /\ is_letter c = true.
Proof.
  unfold drive_letter. split.
  - destruct id as [|c [|d rest]]; try discriminate.
    destruct (Ascii.eqb_spec d ":"%char) as [->|Hd].
    + intros H. eauto.
    + intros H. exfalso.
      destruct d as [[] [] [] [] [] [] [] []]; try discriminate; congruence.
  - intros (c & rest & -> & H). exact H.
Qed.

(** ** The assembler *)

Lemma Forall2_In_r {A B : Type} (R : A -> B -> Prop) (l : list A) (l' : list B) y :
  Forall2 R l l' -> In y l' -> exists x, In x l /\ R x y.
Proof.
  induction 1 as [|x y' l l' Hxy _ IH]; simpl; [tauto|].
  intros [<- | Hin].
  - exists x. auto.
  - destruct (IH Hin) as (x' & Hx' & HR). exists x'. auto.
Qed.

Lemma isExternal_iff (deps : list jstring) (id : jstring) :
  isExternal deps id = true <->
  ~ rooted id /\ exists dep, In dep deps /\ names_dependency id dep.
Proof.
  unfold isExternal, rooted, names_dependency.
  destruct (startsWith id (js ".")) eqn:Hdot.
  { apply startsWith_iff in Hdot as [r ->]. split; [discriminate|].
    intros [Hn _]. exfalso. apply Hn. left. exists r. reflexivity. }
  destruct (startsWith id (js "/")) eqn:Hsl.
  { apply startsWith_iff in Hsl as [r ->]. split; [discriminate|].
    intros [Hn _]. exfalso. apply Hn. right; left. exists r. reflexivity. }
  destruct (drive_letter id) eqn:Hdr.
  { apply drive_letter_iff in Hdr. split; [discriminate|].
    intros [Hn _]. exfalso. apply Hn. right; right. exact Hdr. }
  cbn [orb].
  rewrite existsb_exists. split.
  - intros (dep & Hin & H). split.
    + intros Hr. destruct Hr as [[r ->] | [[r ->] | Hd]].
      * cbn in Hdot. discriminate.
      * cbn in Hsl. discriminate.
      * apply drive_letter_iff in Hd. congruence.
    + exists dep. split; [exact Hin|].
      apply orb_true_iff in H as [H | H].
      * left. apply eqb_true_iff, H.
      * right. apply startsWith_iff in H as [r ->].
        exists r. rewrite <- app_assoc. reflexivity.
  - intros (_ & dep & Hin & H). exists dep. split; [exact Hin|].
    apply orb_true_iff. destruct H as [-> | [r ->]].
    + left. apply eqb_refl.
    + right. apply startsWith_iff. exists r. rewrite <- app_assoc. reflexivity.
Qed.

Section AssemblerFacts.

Variable resolve : jstring -> jstring -> jstring.
Variable JSON_parse : jstring -> option Manifest.

Lemma forEach_format_inv options watch fs dir pkg fmts acc configs :
  forEach_format resolve options watch fs dir pkg fmts acc = Ok configs ->
  exists ds,
    configs = acc ++ ds
    /\ Forall2 (fun f d => format_descriptor resolve options watch fs dir pkg f = Ok d)
               fmts ds.
Proof.
  revert acc configs. induction fmts as [|f fmts IH]; intros acc configs; simpl.
  - intros [= <-]. exists []. rewrite app_nil_r. split; [reflexivity | constructor].
  - destruct (format_descriptor resolve options watch fs dir pkg f) as [d|e] eqn:Hd;
      simpl; [|discriminate].
    intros H. apply IH in H as (ds & -> & Hall).
    exists (d :: ds). rewrite <- app_assoc. split; [reflexivity|].
    constructor; assumption.
Qed.

Lemma forEach_format_total options watch fs dir pkg fmts acc ds :
  Forall2 (fun f d => format_descriptor resolve options watch fs dir pkg f = Ok d)
          fmts ds ->
  forEach_format resolve options watch fs dir pkg fmts acc = Ok (acc ++ ds).
Proof.
  intros H. revert acc. induction H as [|f d fmts ds Hd _ IH]; intros acc; simpl.
  - rewrite app_nil_r. reflexivity.
  - rewrite Hd. simpl. rewrite IH, <- app_assoc. reflexivity.
Qed.

(** What a successful call went through. *)
Lemma createConfig_inv options watch fs configs :
  createConfig resolve JSON_parse options watch fs = Ok configs ->
  exists dir pkg ds,
    packageDir options = Some dir
    /\ dir <> []
    /\ getPackageJson resolve JSON_parse fs dir = Ok pkg
    /\ Forall2 (fun f d => format_descriptor resolve options watch fs dir pkg f = Ok d)
               (the_formats options) ds
    /\ configs = ds ++ (if generateDts options
                        then [dts_descriptor resolve options fs dir pkg] else []).
Proof.
  unfold createConfig.
  destruct (packageDir options) as [[|c dir]|] eqn:Hdir; simpl; try discriminate.
  destruct (getPackageJson resolve JSON_parse fs (c :: dir)) as [pkg|e] eqn:Hpkg;
    simpl; [|discriminate].
  unfold assemble_configs.
  destruct (forEach_format resolve options watch fs (c :: dir) pkg
              (the_formats options) []) as [cs|e] eqn:Hfe; simpl; [|discriminate].
  apply forEach_format_inv in Hfe as (ds & -> & Hall). simpl.
  intros [= <-]. exists (c :: dir), pkg, ds.
  repeat split; try assumption; try discriminate.
  destruct (generateDts options); [reflexivity | rewrite app_nil_r; reflexivity].
Qed.

Lemma format_descriptor_inv options watch fs dir pkg f d :
  format_descriptor resolve options watch fs dir pkg f = Ok d ->
  d_external d = the_isExternal options pkg
  /\ d_plugins d = format_plugins resolve options watch fs dir f
  /\ d_input d = inputPath resolve options dir
  /\ outputConfig resolve options dir pkg f = Ok (d_output d).
Proof.
  unfold format_descriptor.
  destruct (outputConfig resolve options dir pkg f) as [o|e]; simpl;
    [|discriminate].
  intros [= <-]. simpl. auto.
Qed.

End AssemblerFacts.

(** C1. The externality predicate of every descriptor [createConfig] returns
    classifies a specifier as external exactly when the specifier is not
    relative, absolute or drive-letter-rooted and it names (equals, or is a
    path below) a key of the manifest's [dependencies], a key of its
    [peerDependencies] or a caller-supplied external.  With dependencies
    [{a}], peer dependencies [{b}] and caller externals [[c]], the specifiers
    [a], [a/sub], [b], [c] are external and [./a], [/abs/a], [d] are not. *)
Theorem external_iff_listed :
  (forall resolve JSON_parse options watch fs configs,
      createConfig resolve JSON_parse options watch fs = Ok configs ->
      exists dir pkg,
        packageDir options = Some dir
        /\ getPackageJson resolve JSON_parse fs dir = Ok pkg
        /\ forall d, In d configs -> forall id,
             d_external d id = true <->
             ~ rooted id
             /\ exists dep,
                 In dep (keys_or_empty (pkg_dependencies pkg)
                         ++ keys_or_empty (pkg_peerDependencies pkg)
                         ++ default [] (external options))
                 /\ names_dependency id dep)
  /\ (forall pkg,
         pkg_dependencies pkg = Some [(js "a", js "1")] ->
         pkg_peerDependencies pkg = Some [(js "b", js "1")] ->
         let ext := isExternal (externalDeps pkg [js "c"]) in
         ext (js "a") = true /\ ext (js "a/sub") = true
         /\ ext (js "b") = true /\ ext (js "c") = true
         /\ ext (js "./a") = false /\ ext (js "/abs/a") = false
         /\ ext (js "d") = false).
Proof.
  split.
  - intros resolve JSON_parse options watch fs configs H.
    apply createConfig_inv in H as (dir & pkg & ds & Hdir & _ & Hpkg & Hall & ->).
    exists dir, pkg. split; [assumption|]. split; [assumption|].
    intros d Hin id.
    assert (He : d_external d = the_isExternal options pkg).
    { apply in_app_or in Hin as [Hin | Hin].
      - apply (Forall2_In_r _ _ _ _ Hall) in Hin as (f & _ & Hf).
        apply format_descriptor_inv in Hf. apply Hf.
      - destruct (generateDts options); [|destruct Hin].
        destruct Hin as [<- | []]. reflexivity. }
    rewrite He. apply isExternal_iff.
  - intros pkg Hd Hp. unfold externalDeps. rewrite Hd, Hp.
    vm_compute. repeat split; reflexivity.
Qed.

Lemma external_iff_listed_witness :
  exists configs,
    createConfig resolve_join parse_demo demo_options None demo_fs = Ok configs
    /\ exists dir pkg,
        packageDir demo_options = Some dir
        /\ getPackageJson resolve_join parse_demo demo_fs dir = Ok pkg
        /\ forall d, In d configs -> forall id,
             d_external d id = true <->
             ~ rooted id
             /\ exists dep,
                 In dep (keys_or_empty (pkg_dependencies pkg)
                         ++ keys_or_empty (pkg_peerDependencies pkg)
                         ++ default [] (external demo_options))
                 /\ names_dependency id dep.
Proof.
  destruct (createConfig resolve_join parse_demo demo_options None demo_fs)
    as [cs|e] eqn:H.
  - exists cs. split; [reflexivity|].
    exact (proj1 external_iff_listed _ _ _ _ _ _ H).
  - vm_compute in H. discriminate.
Defined.

Section DescriptorFacts.

Variable resolve : jstring -> jstring -> jstring.

(** The build steps of a format descriptor, written out. *)
Lemma format_plugins_eq options watch fs dir f :
  format_plugins resolve options watch fs dir f =
  [ NodeResolve [js ".ts"; js ".tsx"; js ".js"; js ".jsx"; js ".json"];
    CommonJs;
    Json;
    Typescript (tsConfigPath resolve fs dir) false false (the_sourcemap options)
      (spread [ (js "target", TsStr (js "ESNext"));
                (js "outDir", TsStr (outputPath resolve options dir));
                (js "rootDir", TsStr (resolve dir (js "src"))) ]
              (additionalTsConfig options)) ]
  ++ (if enableBabel options
      then [Babel [js ".ts"; js ".tsx"; js ".js"; js ".jsx"] (browserslist options)]
      else [])
  ++ (if default true (minify options) then [Terser 2018 2018] else [])
  ++ [Filesize]
  ++ (if is_esm f && negb (truthy watch) then [UpdateReadme dir] else []).
Proof.
  unfold format_plugins, basePlugins, minifyPlugin, filter_Boolean.
  destruct (enableBabel options), (default true (minify options)),
    (is_esm f && negb (truthy watch)); reflexivity.
Qed.

Lemma format_plugins_no_dts options watch fs dir f t :
  ~ In (DtsPlugin t) (format_plugins resolve options watch fs dir f).
Proof.
  rewrite format_plugins_eq.
  destruct (enableBabel options), (default true (minify options)),
    (is_esm f && negb (truthy watch)); simpl; intuition discriminate.
Qed.

Lemma outputConfig_format options dir pkg f o :
  outputConfig resolve options dir pkg f = Ok o -> out_format o = f.
Proof.
  unfold outputConfig.
  destruct (is_esm f); [intros [= <-]; reflexivity|].
  destruct (is_cjs f); [intros [= <-]; reflexivity|].
  destruct (is_umd_or_iife f); [|intros [= <-]; reflexivity].
  destruct (truthy (name options)); simpl.
  - intros [= <-]. reflexivity.
  - destruct (pkg_name pkg); simpl; [|discriminate].
    intros [= <-]. reflexivity.
Qed.


End DescriptorFacts.



(** C4. When [packageDir] is absent, and when the package directory holds no
    manifest file, [createConfig] throws a configuration error; it returns no
    descriptor list. *)
Theorem configuration_errors :
  (forall resolve JSON_parse options watch fs,
      packageDir options = None ->
      createConfig resolve JSON_parse options watch fs
      = Throw (JsError (js "packageDir is required")))
  /\ (forall resolve JSON_parse options watch fs dir,
         packageDir options = Some dir ->
         dir <> [] ->
         fs !! resolve dir (js "package.json") = None ->
         createConfig resolve JSON_parse options watch fs
         = Throw (JsError (js "package.json not found in " ++ dir))).
Proof.
  split.
  - intros resolve JSON_parse options watch fs H.
    unfold createConfig. rewrite H. reflexivity.
  - intros resolve JSON_parse options watch fs dir Hdir Hne Hfs.
    unfold createConfig. rewrite Hdir.
    destruct dir as [|c dir]; [congruence|]. simpl.
    unfold getPackageJson, existsSync. rewrite Hfs. reflexivity.
Qed.

Lemma configuration_errors_witness :
  createConfig resolve_join parse_demo no_options None demo_fs
  = Throw (JsError (js "packageDir is required"))
  /\ createConfig resolve_join parse_demo (with_dir (js "/nowhere") no_options)
       None demo_fs
     = Throw (JsError (js "package.json not found in /nowhere")).
Proof.
  split.
  - apply (proj1 configuration_errors). reflexivity.
  - apply (proj2 configuration_errors resolve_join parse_demo
             (with_dir (js "/nowhere") no_options) None demo_fs (js "/nowhere")).
    + reflexivity.
    + discriminate.
    + vm_compute. reflexivity.
Defined.

(** An empty [packageDir] is falsy and fails the same way. *)
Lemma empty_packageDir_throws resolve JSON_parse options watch fs :
  packageDir options = Some [] ->
  createConfig resolve JSON_parse options watch fs
  = Throw (JsError (js "packageDir is required")).
Proof. intros H. unfold createConfig. rewrite H. reflexivity. Qed.

Section NameDerivation.

Variable resolve : jstring -> jstring -> jstring.

Lemma umd_or_iife_cases f :
  is_umd_or_iife f = true -> f = js "umd" \/ f = js "iife".
Proof.
  unfold is_umd_or_iife. intros H. apply orb_true_iff in H as [H | H];
    apply eqb_true_iff in H; auto.
Qed.




End NameDerivation.



(** ** Build steps *)

Lemma assoc_set_key {V : Type} (k k' : jstring) (v : V) (l : list (jstring * V)) :
  assoc k (set_key k' v l) = if JsString.eqb k k' then Some v else assoc k l.
Proof.
  induction l as [|[k0 v0] l IH]; simpl.
  - destruct (JsString.eqb k k'); reflexivity.
  - destruct (JsString.eqb k' k0) eqn:E0; simpl.
    + apply eqb_true_iff in E0. subst k0.
      destruct (JsString.eqb k k'); reflexivity.
    + destruct (JsString.eqb k k0) eqn:E1.
      * apply eqb_true_iff in E1. subst k0.
        destruct (JsString.eqb k k') eqn:E2; [|reflexivity].
        apply eqb_true_iff in E2. subst k'. rewrite eqb_refl in E0. discriminate.
      * exact IH.
Qed.





(** ** The exposed name *)




Lemma no_slash_no_split (s : jstring) :
  slashes s = 0 -> after_last_slash s = None /\ after_first_slash s = None.
Proof.
  unfold slashes. induction s as [|c t IH]; simpl; [auto|].
  destruct (Ascii.eqb c "/"%char); simpl; [discriminate|].
  intros H. destruct (IH H) as [-> ->]. auto.
Qed.


Lemma dot_run_one_line (s : jstring) : one_line s = true -> dot_run s = s.
Proof.
  induction s as [|c t IH]; simpl; [reflexivity|].
  intros H. apply andb_true_iff in H as [Hc Ht].
  apply negb_true_iff in Hc. rewrite Hc, (IH Ht). reflexivity.
Qed.







Example scope_strip_is_greedy :
  toPascalCase (replace_scope (js "@a/b/c")) = js "C"
  /\ pascal_case_rule (js "@a/b/c") = js "B/c".
Proof. split; reflexivity. Qed.

(** ** The badge updater: guards and failures *)

(** C8. When the README or the manifest does not exist the updater returns
    normally and leaves the world as it found it: nothing is written, no
    README is created, nothing is logged. *)
Theorem missing_file_is_noop resolve JSON_parse gzip_length dir bundle w :
  w_fs w !! resolve dir (js "README.md") = None
  \/ w_fs w !! resolve dir (js "package.json") = None ->
  writeBundle resolve JSON_parse gzip_length dir bundle w = Ok w.
Proof.
  intros H. unfold writeBundle, existsSync.
  destruct H as [-> | ->]; [reflexivity|].
  destruct (w_fs w !! resolve dir (js "README.md")); reflexivity.
Qed.

Lemma missing_file_is_noop_witness :
  writeBundle resolve_join parse_demo gzip_identity (js "/pkg") [Chunk (js "x")]
    (world_of nameless_fs)
  = Ok (world_of nameless_fs)
  /\ w_fs (world_of nameless_fs) !! js "/pkg/README.md" = None.
Proof.
  split.
  - apply missing_file_is_noop. left. vm_compute. reflexivity.
  - vm_compute. reflexivity.
Defined.

(** C9. The updater never throws.  When the work between reading the
    manifest and writing the README raises an exception, the exception is
    logged to the standard error stream, the files stay as they were and the
    updater returns normally; a manifest that does not parse and a README
    that cannot be read or written are such exceptions. *)
Theorem updater_catches_all :
  (forall resolve JSON_parse gzip_length dir bundle w,
      exists w', writeBundle resolve JSON_parse gzip_length dir bundle w = Ok w')
  /\ (forall resolve JSON_parse gzip_length dir bundle w e,
         w_fs w !! resolve dir (js "README.md") <> None ->
         w_fs w !! resolve dir (js "package.json") <> None ->
         update_body resolve JSON_parse gzip_length dir bundle (w_fs w) = Throw e ->
         writeBundle resolve JSON_parse gzip_length dir bundle w
         = Ok {| w_fs := w_fs w;
                 w_stderr := w_stderr w
                             ++ [(js "Failed to update README badges:", e)] |})
  /\ (forall resolve JSON_parse gzip_length dir bundle fs text writable,
         fs !! resolve dir (js "package.json") = Some (File text writable) ->
         JSON_parse text = None ->
         update_body resolve JSON_parse gzip_length dir bundle fs = Throw SyntaxError)
  /\ (forall resolve JSON_parse gzip_length dir bundle fs text writable pkg content,
         fs !! resolve dir (js "package.json") = Some (File text writable) ->
         JSON_parse text = Some pkg ->
         fs !! resolve dir (js "README.md") = Some (File content false) ->
         update_body resolve JSON_parse gzip_length dir bundle fs
         = Throw (FsError (js "EACCES"))).
Proof.
  split; [|split; [|split]].
  - intros. unfold writeBundle.
    destruct (negb _ || negb _); [eauto|].
    destruct (update_body _ _ _ _ _ _); simpl; eauto.
  - intros resolve JSON_parse gzip_length dir bundle w e Hr Hp Hb.
    unfold writeBundle, existsSync.
    destruct (w_fs w !! resolve dir (js "README.md")); [|congruence].
    destruct (w_fs w !! resolve dir (js "package.json")); [|congruence].
    simpl. rewrite Hb. reflexivity.
  - intros resolve JSON_parse gzip_length dir bundle fs text writable Hp Hj.
    unfold update_body, readFileSync. rewrite Hp. simpl. rewrite Hj. reflexivity.
  - intros resolve JSON_parse gzip_length dir bundle fs text writable pkg content
      Hp Hj Hr.
    unfold update_body, readFileSync, writeFileSync.
    rewrite Hp, Hr. cbn [bind]. rewrite Hj. reflexivity.
Qed.

Lemma updater_catches_all_witness :
  writeBundle resolve_join parse_demo gzip_identity (js "/pkg") [Chunk (js "x")]
    (world_of broken_fs)
  = Ok {| w_fs := broken_fs;
          w_stderr := [(js "Failed to update README badges:", SyntaxError)] |}
  /\ writeBundle resolve_join parse_demo gzip_identity (js "/pkg") [Chunk (js "x")]
       (world_of readonly_fs)
     = Ok {| w_fs := readonly_fs;
             w_stderr := [(js "Failed to update README badges:",
                           FsError (js "EACCES"))] |}.
Proof.
  destruct updater_catches_all as (_ & Hcatch & Hjson & Hio).
  split.
  - apply (Hcatch resolve_join parse_demo gzip_identity (js "/pkg")
             [Chunk (js "x")] (world_of broken_fs) SyntaxError).
    + vm_compute. discriminate.
    + vm_compute. discriminate.
    + apply (Hjson _ _ _ _ _ broken_fs (js "{") true); vm_compute; reflexivity.
  - apply (Hcatch resolve_join parse_demo gzip_identity (js "/pkg")
             [Chunk (js "x")] (world_of readonly_fs) (FsError (js "EACCES"))).
    + vm_compute. discriminate.
    + vm_compute. discriminate.
    + apply (Hio _ _ _ _ _ readonly_fs (js "{demo}") true demo_manifest (js "# my-lib"));
        vm_compute; reflexivity.
Defined.

(** ** Occurrences and matches *)

Section Occurrences.

Implicit Types p s a b : jstring.

Lemma startsWith_nil_l p : p <> [] -> startsWith [] p = false.
Proof. destruct p; [congruence | reflexivity]. Qed.

Lemma startsWith_extend s p b :
  startsWith s p = true -> startsWith (s ++ b) p = true.
Proof.
  intros H. apply startsWith_iff in H as [r ->].
  rewrite <- app_assoc. apply startsWith_app.
Qed.

(** A match of [p] that begins before a character foreign to [p] ends
    before it. *)
Lemma startsWith_before_foreign s p c b :
  ~ In c p -> startsWith (s ++ c :: b) p = true -> startsWith s p = true.
Proof.
  revert s. induction p as [|x p IH]; intros s Hc H; [reflexivity|].
  destruct s as [|y s]; simpl in *.
  - apply andb_true_iff in H as [H _]. apply Ascii.eqb_eq in H. subst.
    exfalso. apply Hc. left. reflexivity.
  - apply andb_true_iff in H as [H1 H2]. rewrite H1. simpl.
    apply IH; [|exact H2]. intros Hin. apply Hc. right. exact Hin.
Qed.

Lemma startsWith_head_differs s p c x :
  Ascii.eqb c x = false -> startsWith (x :: s) (c :: p) = false.
Proof. intros H. simpl. rewrite H. reflexivity. Qed.

Lemma startsWith_longer s p q :
  startsWith s (p ++ q) = true -> startsWith s p = true.
Proof.
  intros H. apply startsWith_iff in H as [r ->].
  rewrite <- app_assoc. apply startsWith_app.
Qed.

Lemma occurs_false_head p s : occurs p s = false -> startsWith s p = false.
Proof. destruct s; simpl; intros H; apply orb_false_iff in H; apply H. Qed.

Lemma occurs_false_tail p c s : occurs p (c :: s) = false -> occurs p s = false.
Proof. simpl. intros H. apply orb_false_iff in H. apply H. Qed.

Lemma occurs_skipn p s n : occurs p s = false -> occurs p (skipn n s) = false.
Proof.
  revert s. induction n as [|n IH]; intros s H; [exact H|].
  destruct s as [|c s]; [exact H|]. simpl. apply IH.
  eapply occurs_false_tail. exact H.
Qed.

Lemma starts_nowhere_app p a1 a2 b :
  starts_nowhere p (a1 ++ a2) b
  = starts_nowhere p a1 (a2 ++ b) && starts_nowhere p a2 b.
Proof.
  induction a1 as [|c a1 IH]; simpl; [reflexivity|].
  rewrite IH, <- !app_assoc, andb_assoc. reflexivity.
Qed.

(** Part of the text whose characters all differ from the first
    character of [p] starts no occurrence. *)
Lemma starts_nowhere_foreign c p a b :
  forallb (fun x => negb (Ascii.eqb c x)) a = true ->
  starts_nowhere (c :: p) a b = true.
Proof.
  induction a as [|x a IH]; simpl; [reflexivity|].
  intros H. apply andb_true_iff in H as [Hx Ha].
  apply negb_true_iff in Hx. rewrite Hx. simpl. apply IH, Ha.
Qed.

(** A part free of [p] that is followed by a character foreign to [p]
    starts no occurrence. *)
Lemma starts_nowhere_free p a c b :
  occurs p a = false -> ~ In c p -> starts_nowhere p a (c :: b) = true.
Proof.
  intros Ha Hc. induction a as [|x a IH]; [reflexivity|].
  cbn [starts_nowhere]. rewrite IH by (eapply occurs_false_tail; exact Ha).
  rewrite andb_true_r. apply negb_true_iff.
  destruct (startsWith ((x :: a) ++ c :: b) p) eqn:E; [|reflexivity].
  apply startsWith_before_foreign in E; [|exact Hc].
  rewrite (occurs_false_head _ _ Ha) in E. discriminate.
Qed.

Lemma starts_nowhere_end p a : p <> [] -> occurs p a = false ->
  starts_nowhere p a [] = true.
Proof.
  intros Hp Ha. induction a as [|x a IH]; [reflexivity|].
  cbn [starts_nowhere]. rewrite app_nil_r, (occurs_false_head _ _ Ha).
  simpl. apply IH. eapply occurs_false_tail. exact Ha.
Qed.

(** Occurrences of a longer text are occurrences of its prefix. *)
Lemma starts_nowhere_longer p q a b :
  starts_nowhere p a b = true -> starts_nowhere (p ++ q) a b = true.
Proof.
  induction a as [|x a IH]; [reflexivity|]. cbn [starts_nowhere].
  intros H. apply andb_true_iff in H as [H1 H2]. rewrite (IH H2), andb_true_r.
  apply negb_true_iff in H1. apply negb_true_iff.
  destruct (startsWith ((x :: a) ++ b) (p ++ q)) eqn:E; [|reflexivity].
  apply startsWith_longer in E. congruence.
Qed.

Lemma occurs_app p a b :
  starts_nowhere p a b = true -> occurs p (a ++ b) = occurs p b.
Proof.
  induction a as [|x a IH]; [reflexivity|]. cbn [starts_nowhere].
  intros H. apply andb_true_iff in H as [H1 H2].
  apply negb_true_iff in H1. simpl in *. rewrite H1. simpl. apply IH, H2.
Qed.

End Occurrences.

Section Matches.

Import Badge.
Implicit Types p s a b : jstring.

Lemma match_at_needs_prefix p s : startsWith s p = false -> match_at p s = None.
Proof. unfold match_at. intros ->. reflexivity. Qed.

Lemma class_run_stops body r :
  no_close body = true -> class_run (body ++ ")"%char :: r) = body.
Proof.
  induction body as [|c body IH]; simpl; [reflexivity|].
  intros H. apply andb_true_iff in H as [Hc Hb]. rewrite Hc, (IH Hb). reflexivity.
Qed.

Lemma skipn_length_app {A : Type} (x y : list A) : skipn (length x) (x ++ y) = y.
Proof. induction x; simpl; auto. Qed.

Lemma skipn_length_app2 {A : Type} (x y z : list A) :
  skipn (length x + length y) (x ++ y ++ z) = z.
Proof. rewrite <- length_app, app_assoc. apply skipn_length_app. Qed.

Lemma skipn_past_badge {A : Type} (x y : list A) (c : A) (z : list A) :
  skipn (length x + length y + 1) (x ++ y ++ c :: z) = z.
Proof.
  replace (x ++ y ++ c :: z) with ((x ++ y ++ [c]) ++ z)
    by (rewrite <- !app_assoc; reflexivity).
  replace (length x + length y + 1) with (length (x ++ y ++ [c]))
    by (rewrite !length_app; simpl; lia).
  apply skipn_length_app.
Qed.

Lemma firstn_length_app2 {A : Type} (x y z : list A) :
  firstn (length x + length y) (x ++ y ++ z) = x ++ y.
Proof.
  rewrite <- length_app, app_assoc.
  induction (x ++ y) as [|a l IH]; simpl; [destruct z; reflexivity | f_equal; auto].
Qed.

Lemma firstn_length_app {A : Type} (x y : list A) : firstn (length x) (x ++ y) = x.
Proof. induction x; simpl; [destruct y; reflexivity | f_equal; auto]. Qed.

(** The pattern matches a badge: the prefix, a body without [')'] that is
    not empty, and the closing [')']. *)
Lemma match_at_badge p body r :
  body <> [] -> no_close body = true ->
  match_at p (p ++ body ++ ")"%char :: r) = Some (length p + length body + 1).
Proof.
  intros Hne Hb. unfold match_at.
  rewrite startsWith_app, skipn_length_app, (class_run_stops _ _ Hb).
  destruct body as [|c body]; [congruence|].
  rewrite (skipn_length_app (c :: body)). reflexivity.
Qed.

Lemma exec_app p a b :
  starts_nowhere p a b = true ->
  exec p (a ++ b) = option_map (shift (length a)) (exec p b).
Proof.
  induction a as [|x a IH]; cbn [starts_nowhere].
  - intros _. simpl. destruct (exec p b) as [[i n]|]; reflexivity.
  - intros H. apply andb_true_iff in H as [H1 H2]. apply negb_true_iff in H1.
    cbn [exec app]. change (x :: a ++ b) with ((x :: a) ++ b).
    rewrite (match_at_needs_prefix _ _ H1), (IH H2).
    destruct (exec p b) as [[i n]|]; reflexivity.
Qed.

Lemma exec_here p s n : match_at p s = Some n -> exec p s = Some (0, n).
Proof. intros H. destruct s; simpl; rewrite H; reflexivity. Qed.

Lemma exec_free p s : occurs p s = false -> exec p s = None.
Proof.
  induction s as [|x s IH]; intros H.
  - simpl. rewrite (match_at_needs_prefix _ _ (occurs_false_head _ _ H)).
    reflexivity.
  - cbn [exec]. rewrite (match_at_needs_prefix _ _ (occurs_false_head _ _ H)).
    rewrite (IH (occurs_false_tail _ _ _ H)). reflexivity.
Qed.

Lemma indexOf_app q a b :
  starts_nowhere q a b = true ->
  indexOf (a ++ b) q = option_map (Nat.add (length a)) (indexOf b q).
Proof.
  induction a as [|x a IH]; cbn [starts_nowhere].
  - intros _. simpl. destruct (indexOf b q); reflexivity.
  - intros H. apply andb_true_iff in H as [H1 H2]. apply negb_true_iff in H1.
    cbn [indexOf app]. change (x :: a ++ b) with ((x :: a) ++ b).
    rewrite H1, (IH H2). destruct (indexOf b q); reflexivity.
Qed.

Lemma indexOf_here s q : startsWith s q = true -> indexOf s q = Some 0.
Proof. destruct s; simpl; intros ->; reflexivity. Qed.

Lemma indexOf_free q s : occurs q s = false -> indexOf s q = None.
Proof.
  induction s as [|x s IH]; intros H.
  - simpl. rewrite (occurs_false_head _ _ H). reflexivity.
  - cbn [indexOf]. rewrite (occurs_false_head _ _ H).
    rewrite (IH (occurs_false_tail _ _ _ H)). reflexivity.
Qed.

Lemma count_matches_app p a b :
  starts_nowhere p a b = true -> count_matches p (a ++ b) = count_matches p b.
Proof.
  induction a as [|x a IH]; cbn [starts_nowhere]; [reflexivity|].
  intros H. apply andb_true_iff in H as [H1 H2]. apply negb_true_iff in H1.
  cbn [count_matches app]. change (x :: a ++ b) with ((x :: a) ++ b).
  rewrite (match_at_needs_prefix _ _ H1), (IH H2). reflexivity.
Qed.

Lemma count_matches_free p s : occurs p s = false -> count_matches p s = 0.
Proof.
  induction s as [|x s IH]; intros H.
  - simpl. rewrite (match_at_needs_prefix _ _ (occurs_false_head _ _ H)).
    reflexivity.
  - cbn [count_matches]. rewrite (match_at_needs_prefix _ _ (occurs_false_head _ _ H)).
    rewrite (IH (occurs_false_tail _ _ _ H)). reflexivity.
Qed.

(** A replacement text without ['$'] is inserted as it is. *)
Lemma substitution_plain repl before matched after :
  no_dollar repl = true -> substitution repl before matched after = repl.
Proof.
  assert (H : forall n repl, length repl <= n -> no_dollar repl = true ->
                substitution repl before matched after = repl).
  { clear repl. induction n as [|n IH]; intros [|c [|d r]] Hlen Hd;
      simpl in *; try reflexivity; try lia.
    apply andb_true_iff in Hd as [Hc Hr]. apply negb_true_iff in Hc.
    rewrite Hc. f_equal. apply (IH (d :: r)); [simpl; lia | exact Hr]. }
  apply (H (length repl)). lia.
Qed.

End Matches.

(** ** Lines *)

Section Lines.

Import Badge.
Implicit Types p s : jstring.

Lemma split_lines_first s :
  exists l ls rest, split_lines s = l :: ls /\ s = l ++ rest.
Proof.
  induction s as [|c t (l & ls & rest & IH & Ht)].
  - exists [], [], []. auto.
  - cbn [split_lines]. destruct (Ascii.eqb c LF).
    + exists [], (split_lines t), (c :: t). auto.
    + destruct (Ascii.eqb c CR && startsWith t [LF]) eqn:E.
      * exists l, ls, (skipn (length l) (c :: t)).
        split; [exact IH|].
        apply andb_true_iff in E as [_ E].
        apply startsWith_iff in E as [r ->]. simpl in IH.
        injection IH as <- _. reflexivity.
      * rewrite IH. exists (c :: l), ls, rest. rewrite Ht at 1. auto.
Qed.

Lemma split_lines_free p s :
  p <> [] -> occurs p s = false ->
  Forall (fun l => occurs p l = false) (split_lines s).
Proof.
  intros Hp. induction s as [|c t IH]; intros H.
  - constructor; [exact H | constructor].
  - pose proof (occurs_false_head _ _ H) as Hh.
    specialize (IH (occurs_false_tail _ _ _ H)).
    assert (Hnil : occurs p [] = false).
    { simpl. rewrite (startsWith_nil_l p Hp). reflexivity. }
    cbn [split_lines]. destruct (Ascii.eqb c LF).
    + constructor; assumption.
    + destruct (Ascii.eqb c CR && startsWith t [LF]); [exact IH|].
      destruct (split_lines_first t) as (l & ls & rest & El & Ht).
      rewrite El in *. apply Forall_cons_iff in IH as [Hl Hls].
      constructor; [|exact Hls].
      cbn [occurs]. rewrite Hl, orb_false_r.
      destruct (startsWith (c :: l) p) eqn:E; [|reflexivity].
      apply (startsWith_extend _ _ rest) in E.
      change ((c :: l) ++ rest) with (c :: (l ++ rest)) in E.
      rewrite <- Ht in E. congruence.
Qed.

Lemma join_cons x l : l <> [] -> join (x :: l) = x ++ LF :: join l.
Proof. destruct l; [congruence | reflexivity]. Qed.

Lemma join_app a b :
  a <> [] -> b <> [] -> join (a ++ b) = join a ++ LF :: join b.
Proof.
  intros Ha Hb. induction a as [|x a IH]; [congruence|].
  destruct a as [|y a].
  - simpl app. apply join_cons, Hb.
  - change ((x :: y :: a) ++ b) with (x :: (y :: a) ++ b).
    rewrite join_cons by discriminate.
    rewrite IH by discriminate. rewrite (join_cons x (y :: a)) by discriminate.
    rewrite <- app_assoc. reflexivity.
Qed.

Lemma occurs_lf_cons p s :
  p <> [] -> ~ In LF p -> occurs p (LF :: s) = occurs p s.
Proof.
  intros Hp Hlf. destruct p as [|c p]; [congruence|].
  cbn [occurs]. rewrite startsWith_head_differs; [reflexivity|].
  destruct (Ascii.eqb_spec c LF) as [->|]; [|reflexivity].
  exfalso. apply Hlf. left. reflexivity.
Qed.

(** Joining puts a line feed between two texts; nothing without a line
    feed can reach across it. *)
Lemma occurs_across_lf p a b :
  p <> [] -> ~ In LF p ->
  occurs p a = false -> occurs p b = false -> occurs p (a ++ LF :: b) = false.
Proof.
  intros Hp Hlf Ha Hb.
  rewrite (occurs_app _ _ _ (starts_nowhere_free p a LF b Ha Hlf)).
  rewrite (occurs_lf_cons p b Hp Hlf). exact Hb.
Qed.

Lemma join_free p (l : list jstring) :
  p <> [] -> ~ In LF p ->
  Forall (fun x => occurs p x = false) l -> occurs p (join l) = false.
Proof.
  intros Hp Hlf. induction 1 as [|x l Hx Hl IH].
  - simpl. rewrite (startsWith_nil_l p Hp). reflexivity.
  - destruct l as [|y l]; [exact Hx|].
    rewrite join_cons by discriminate.
    apply occurs_across_lf; assumption.
Qed.

Lemma findIndex_lt {A : Type} (f : A -> bool) (l : list A) i :
  findIndex f l = Some i -> i < length l.
Proof.
  revert i. induction l as [|x l IH]; simpl; [discriminate|].
  destruct (f x); [intros i [= <-]; lia|].
  destruct (findIndex f l) as [j|]; simpl; [|discriminate].
  intros i [= <-]. specialize (IH j eq_refl). lia.
Qed.

End Lines.

(** ** The characters of the two badges *)

Lemma forallb_impl {A : Type} (f g : A -> bool) (l : list A) :
  (forall x, f x = true -> g x = true) -> forallb f l = true -> forallb g l = true.
Proof.
  intros Hfg. induction l as [|x l IH]; simpl; [reflexivity|].
  intros H. apply andb_true_iff in H as [Hx Hl]. rewrite (Hfg x Hx), (IH Hl).
  reflexivity.
Qed.

Lemma forallb_app_true {A : Type} (f : A -> bool) (a b : list A) :
  forallb f a = true -> forallb f b = true -> forallb f (a ++ b) = true.
Proof. intros Ha Hb. rewrite forallb_app, Ha, Hb. reflexivity. Qed.

(** A character of one of the two classes is none of the characters the
    updater treats specially. *)
Lemma class_differs (f : ascii -> bool) (x c : ascii) :
  f x = false -> f c = true -> negb (Ascii.eqb c x) = true.
Proof.
  intros Hx Hc. destruct (Ascii.eqb_spec c x) as [->|]; [congruence | reflexivity].
Qed.

Lemma version_char_facts (v : jstring) :
  plain_version v = true ->
  no_bang v = true /\ no_close v = true /\ no_dollar v = true.
Proof.
  intros H. repeat split; revert H; apply forallb_impl; intros c;
    apply (class_differs version_char); reflexivity.
Qed.

Lemma size_char_facts (s : jstring) :
  forallb size_char s = true ->
  no_bang s = true /\ no_close s = true /\ no_dollar s = true.
Proof.
  intros H. repeat split; revert H; apply forallb_impl; intros c;
    apply (class_differs size_char); reflexivity.
Qed.

Lemma digit_is_digit (d : N) : (d < 10)%N -> size_char (digit d) = true.
Proof.
  intros H.
  assert (E : In d [0; 1; 2; 3; 4; 5; 6; 7; 8; 9]%N).
  { simpl. lia. }
  simpl in E. repeat (destruct E as [<- | E]; [reflexivity|]). destruct E.
Qed.

Lemma uint_digits (u : Decimal.uint) :
  forallb size_char (list_ascii_of_string (NilEmpty.string_of_uint u)) = true.
Proof. induction u; simpl; auto. Qed.

Lemma decimal_digits (n : N) : forallb size_char (decimal n) = true.
Proof.
  unfold decimal, NilZero.string_of_uint.
  destruct (N.to_uint n); try apply uint_digits; reflexivity.
Qed.

Lemma sizeStr_chars (size : N) :
  forallb size_char (toFixed2_div1024 size ++ js "kB") = true.
Proof.
  unfold toFixed2_div1024. apply forallb_app_true; [|reflexivity].
  apply forallb_app_true; [apply decimal_digits|].
  cbn [forallb]. rewrite !digit_is_digit; [reflexivity | |].
  - apply N.mod_lt. discriminate.
  - apply N.Div0.div_lt_upper_bound. apply N.mod_lt. discriminate.
Qed.

(** ** One pass and two passes of the updater over a README *)

Lemma starts_nowhere_no_bang p a b :
  no_bang a = true -> starts_nowhere (BANG :: p) a b = true.
Proof.
  intros H. apply starts_nowhere_foreign. revert H. apply forallb_impl.
  intros x Hx. rewrite Ascii.eqb_sym. exact Hx.
Qed.

Lemma no_bang_quiet a b :
  no_bang a = true ->
  starts_nowhere versionPrefix a b = true /\ starts_nowhere sizePrefix a b = true.
Proof.
  intros H. split.
  - apply (starts_nowhere_no_bang (tl versionPrefix) a b H).
  - apply (starts_nowhere_no_bang (tl sizePrefix) a b H).
Qed.

Section BadgePair.

Import Badge.

Variable v sz : jstring.
Hypothesis Hv : plain_version v = true.
Hypothesis Hsz : forallb size_char sz = true.

Let vb : jstring := versionPrefix ++ v ++ js "-blue)".
Let sb : jstring := sizeBadge sz.

Lemma vb_tail : vb = BANG :: tl vb /\ no_bang (tl vb) = true.
Proof.
  split; [reflexivity|]. destruct (version_char_facts v Hv) as (Hb & _ & _).
  unfold vb. cbn [versionPrefix js list_ascii_of_string app tl].
  unfold no_bang in *. cbn [forallb Ascii.eqb Bool.eqb negb andb BANG].
  apply forallb_app_true; [exact Hb | reflexivity].
Qed.

Lemma sb_tail : sb = BANG :: tl sb /\ no_bang (tl sb) = true.
Proof.
  split; [reflexivity|]. destruct (size_char_facts sz Hsz) as (Hb & _ & _).
  unfold sb, sizeBadge. cbn [sizePrefix js list_ascii_of_string app tl].
  unfold no_bang in *. cbn [forallb Ascii.eqb Bool.eqb negb andb BANG].
  apply forallb_app_true; [exact Hb | reflexivity].
Qed.

Lemma vb_no_dollar : no_dollar vb = true.
Proof.
  destruct (version_char_facts v Hv) as (_ & _ & Hd).
  unfold vb. apply forallb_app_true; [reflexivity|].
  apply forallb_app_true; [exact Hd | reflexivity].
Qed.

Lemma sb_no_dollar : no_dollar sb = true.
Proof.
  destruct (size_char_facts sz Hsz) as (_ & _ & Hd).
  unfold sb, sizeBadge. apply forallb_app_true; [reflexivity|].
  apply forallb_app_true; [exact Hd | reflexivity].
Qed.

Lemma vb_not_size r : startsWith (vb ++ r) sizePrefix = false.
Proof. reflexivity. Qed.

Lemma sb_not_version r : startsWith (sb ++ r) versionPrefix = false.
Proof. reflexivity. Qed.

Lemma match_vb r : match_at versionPrefix (vb ++ r) = Some (length vb).
Proof.
  destruct (version_char_facts v Hv) as (_ & Hc & _).
  assert (E : vb ++ r = versionPrefix ++ (v ++ js "-blue") ++ ")"%char :: r).
  { unfold vb. rewrite <- !app_assoc. reflexivity. }
  rewrite E, match_at_badge.
  - f_equal. unfold vb. rewrite !length_app. simpl. lia.
  - destruct v; discriminate.
  - apply forallb_app_true; [exact Hc | reflexivity].
Qed.

Lemma match_sb r : match_at sizePrefix (sb ++ r) = Some (length sb).
Proof.
  destruct (size_char_facts sz Hsz) as (_ & Hc & _).
  assert (E : sb ++ r = sizePrefix ++ (sz ++ js "-success") ++ ")"%char :: r).
  { unfold sb, sizeBadge. rewrite <- !app_assoc. reflexivity. }
  rewrite E, match_at_badge.
  - f_equal. unfold sb, sizeBadge. rewrite !length_app. simpl. lia.
  - destruct sz; discriminate.
  - apply forallb_app_true; [exact Hc | reflexivity].
Qed.

End BadgePair.

Section Passes.

Import Badge.

Variable v sz : jstring.
Hypothesis Hv : plain_version v = true.
Hypothesis Hsz : forallb size_char sz = true.

(** The text before and the text after the badges start no match. *)
Variable P Q : jstring.
Hypothesis HPv : forall r, starts_nowhere versionPrefix P r = true.
Hypothesis HPs : forall r, starts_nowhere sizePrefix P r = true.
Hypothesis HQv : occurs versionPrefix Q = false.
Hypothesis HQs : occurs sizePrefix Q = false.

Let vb : jstring := versionPrefix ++ v ++ js "-blue)".
Let sb : jstring := sizeBadge sz.

Lemma vb_starts_no_size r : starts_nowhere sizePrefix vb r = true.
Proof.
  destruct (vb_tail v Hv) as [_ Ht].
  change (negb (startsWith (vb ++ r) sizePrefix)
          && starts_nowhere sizePrefix (tl vb) r = true).
  apply andb_true_iff. split; [reflexivity|].
  apply (starts_nowhere_no_bang _ _ _ Ht).
Qed.

Lemma sb_starts_no_version r : starts_nowhere versionPrefix sb r = true.
Proof.
  destruct (sb_tail sz Hsz) as [_ Ht].
  change (negb (startsWith (sb ++ r) versionPrefix)
          && starts_nowhere versionPrefix (tl sb) r = true).
  apply andb_true_iff. split; [reflexivity|].
  apply (starts_nowhere_no_bang _ _ _ Ht).
Qed.

(** With the version badge in place and no size badge, the size badge is
    put after the version badge, one space between them. *)
Lemma size_step_inserts :
  update_size vb sb (P ++ vb ++ Q) = P ++ vb ++ " "%char :: sb ++ Q.
Proof.
  unfold update_size, test.
  rewrite (exec_app _ _ _ (HPs (vb ++ Q))),
    (exec_app _ _ _ (vb_starts_no_size Q)), (exec_free _ _ HQs). simpl option_map.
  assert (Hvb : starts_nowhere vb P (vb ++ Q) = true).
  { apply (starts_nowhere_longer versionPrefix). apply HPv. }
  rewrite (indexOf_app _ _ _ Hvb), (indexOf_here _ _ (startsWith_app vb Q)).
  simpl option_map. unfold slice_to, slice_from.
  rewrite Nat.add_0_r, <- length_app, (app_assoc P vb Q).
  rewrite firstn_length_app, skipn_length_app, <- app_assoc. reflexivity.
Qed.

(** Once both badges are in place the version step replaces the version
    badge by itself. *)
Lemma version_step_settled :
  update_version vb (P ++ vb ++ " "%char :: sb ++ Q)
  = P ++ vb ++ " "%char :: sb ++ Q.
Proof.
  unfold update_version, test, replace.
  rewrite (exec_app _ _ _ (HPv _)), (exec_here _ _ _ (match_vb v Hv _)).
  cbn [option_map shift fst snd].
  rewrite Nat.add_0_r. rewrite (firstn_length_app P).
  rewrite (skipn_length_app P). rewrite (firstn_length_app vb).
  rewrite (substitution_plain _ _ _ _ (vb_no_dollar v Hv)).
  rewrite (skipn_length_app2 P vb). reflexivity.
Qed.

Lemma before_sb_starts_no_size r :
  starts_nowhere sizePrefix (P ++ vb ++ [" "%char]) r = true.
Proof.
  rewrite !starts_nowhere_app, HPs, vb_starts_no_size. reflexivity.
Qed.

(** ... and the size step replaces the size badge by itself. *)
Lemma size_step_settled :
  update_size vb sb (P ++ vb ++ " "%char :: sb ++ Q)
  = P ++ vb ++ " "%char :: sb ++ Q.
Proof.
  assert (E : P ++ vb ++ " "%char :: sb ++ Q = (P ++ vb ++ [" "%char]) ++ sb ++ Q).
  { rewrite <- !app_assoc. reflexivity. }
  rewrite E. unfold update_size, test, replace.
  rewrite (exec_app _ _ _ (before_sb_starts_no_size _)),
    (exec_here _ _ _ (match_sb sz Hsz _)).
  cbn [option_map shift fst snd].
  rewrite Nat.add_0_r. rewrite (firstn_length_app (P ++ vb ++ [" "%char])).
  rewrite (skipn_length_app (P ++ vb ++ [" "%char])). rewrite (firstn_length_app sb).
  rewrite (substitution_plain _ _ _ _ (sb_no_dollar sz Hsz)).
  rewrite (skipn_length_app2 (P ++ vb ++ [" "%char]) sb).
  rewrite <- !app_assoc. reflexivity.
Qed.

Lemma after_vb_starts_no_version :
  starts_nowhere versionPrefix (tl vb ++ " "%char :: sb) Q = true.
Proof.
  destruct (vb_tail v Hv) as [_ Ht].
  change (tl vb ++ " "%char :: sb) with (tl vb ++ [" "%char] ++ sb).
  rewrite !starts_nowhere_app, sb_starts_no_version.
  rewrite (proj1 (no_bang_quiet _ _ Ht)). reflexivity.
Qed.

(** The settled README holds each badge once. *)
Lemma settled_counts :
  count_matches versionPrefix (P ++ vb ++ " "%char :: sb ++ Q) = 1
  /\ count_matches sizePrefix (P ++ vb ++ " "%char :: sb ++ Q) = 1.
Proof.
  split.
  - rewrite (count_matches_app _ _ _ (HPv _)).
    change (vb ++ " "%char :: sb ++ Q)
      with (BANG :: (tl vb ++ " "%char :: sb ++ Q)).
    cbn [count_matches].
    change (BANG :: (tl vb ++ " "%char :: sb ++ Q))
      with (vb ++ " "%char :: sb ++ Q).
    rewrite (match_vb v Hv).
    assert (E : tl vb ++ " "%char :: sb ++ Q = (tl vb ++ " "%char :: sb) ++ Q).
    { rewrite <- app_assoc. reflexivity. }
    rewrite E, (count_matches_app _ _ _ after_vb_starts_no_version).
    rewrite (count_matches_free _ _ HQv). reflexivity.
  - assert (E : P ++ vb ++ " "%char :: sb ++ Q = (P ++ vb ++ [" "%char]) ++ sb ++ Q).
    { rewrite <- !app_assoc. reflexivity. }
    rewrite E, (count_matches_app _ _ _ (before_sb_starts_no_size _)).
    destruct (sb_tail sz Hsz) as [_ Ht].
    change (sb ++ Q) with (BANG :: (tl sb ++ Q)).
    cbn [count_matches].
    change (BANG :: (tl sb ++ Q)) with (sb ++ Q).
    rewrite (match_sb sz Hsz).
    rewrite (count_matches_app _ _ _ (proj2 (no_bang_quiet (tl sb) Q Ht))).
    rewrite (count_matches_free _ _ HQs). reflexivity.
Qed.

End Passes.

Section FirstPass.

Import Badge.

Lemma inherits_lines content (l : list jstring) :
  Forall (fun x => forall p, p <> [] -> occurs p content = false ->
                             occurs p x = false) l ->
  inherits content (join l).
Proof.
  intros H p Hp Hlf Hc. apply join_free; [assumption | assumption|].
  induction H as [|x l Hx _ IH]; constructor; [|exact IH].
  apply Hx; assumption.
Qed.

Lemma split_lines_inherit content :
  Forall (fun x => forall p, p <> [] -> occurs p content = false ->
                             occurs p x = false) (split_lines content).
Proof.
  apply Forall_forall. intros x Hx p Hp Hc.
  pose proof (split_lines_free p content Hp Hc) as H.
  rewrite Forall_forall in H. apply H, Hx.
Qed.

(** Without a version badge in the README the version step puts the badge
    on a line of its own, below the first title line or at the top. *)
Lemma update_version_fresh vBadge content :
  occurs versionPrefix content = false ->
  exists P Q,
    update_version vBadge content = P ++ vBadge ++ Q
    /\ (P = [] \/ exists A, P = A ++ [LF; LF] /\ inherits content A)
    /\ (Q = [] \/ exists B, Q = LF :: B /\ inherits content B).
Proof.
  intros Hfree. unfold update_version, test.
  rewrite (exec_free _ _ Hfree).
  pose proof (split_lines_inherit content) as Hall.
  destruct (split_lines_first content) as (l0 & ls0 & rest0 & Hne & _).
  destruct (findIndex _ (split_lines content)) as [t|] eqn:Ht.
  - apply findIndex_lt in Ht. unfold splice_insert.
    set (F := firstn (t + 1) (split_lines content)).
    set (R := skipn (t + 1) (split_lines content)).
    assert (HF : F <> []).
    { unfold F. rewrite Hne, Nat.add_1_r. discriminate. }
    assert (HAF : inherits content (join F)).
    { apply inherits_lines. apply Forall_take. exact Hall. }
    rewrite (join_app F (_ :: R) HF) by discriminate.
    exists (join F ++ [LF; LF]). destruct R as [|r R'] eqn:ER.
    + exists []. split.
      * simpl join. rewrite app_nil_r, <- app_assoc. reflexivity.
      * split; [right; exists (join F); auto | left; reflexivity].
    + exists (LF :: join (r :: R')). split.
      * rewrite join_cons by discriminate. rewrite <- !app_assoc. reflexivity.
      * split; [right; exists (join F); auto|].
        right. exists (join (r :: R')). split; [reflexivity|].
        apply inherits_lines. rewrite <- ER. apply Forall_drop. exact Hall.
  - exists [], (LF :: LF :: join (split_lines content)). split.
    + rewrite join_cons by (rewrite Hne; discriminate).
      rewrite <- app_assoc. reflexivity.
    + split; [left; reflexivity|].
      right. exists (LF :: join (split_lines content)). split; [reflexivity|].
      intros p Hp Hlf Hc. rewrite (occurs_lf_cons p _ Hp Hlf).
      apply (inherits_lines content _ Hall); assumption.
Qed.

(** The texts around the inserted badge start no occurrence of a badge
    prefix. *)
Lemma fresh_shape_quiet content p P Q :
  ~ In LF (BANG :: p) -> occurs (BANG :: p) content = false ->
  (P = [] \/ exists A, P = A ++ [LF; LF] /\ inherits content A) ->
  (Q = [] \/ exists B, Q = LF :: B /\ inherits content B) ->
  (forall r, starts_nowhere (BANG :: p) P r = true)
  /\ occurs (BANG :: p) Q = false.
Proof.
  intros Hlf Hc HP HQ. split.
  - intros r. destruct HP as [-> | (A & -> & HA)]; [reflexivity|].
    rewrite starts_nowhere_app. apply andb_true_iff. split.
    + apply starts_nowhere_free; [|exact Hlf]. apply HA; [discriminate | | ]; assumption.
    + apply starts_nowhere_no_bang. reflexivity.
  - destruct HQ as [-> | (B & -> & HB)]; [reflexivity|].
    rewrite occurs_lf_cons; [|discriminate | exact Hlf].
    apply HB; [discriminate | |]; assumption.
Qed.

End FirstPass.

(** One pass over a README that mentions neither badge inserts both; a
    second pass changes nothing. *)
Lemma two_passes (v sz content : jstring) :
  plain_version v = true ->
  forallb size_char sz = true ->
  occurs versionPrefix content = false ->
  occurs sizePrefix content = false ->
  let vb := versionPrefix ++ v ++ js "-blue)" in
  let sb := sizeBadge sz in
  let once := update_size vb sb (update_version vb content) in
  update_size vb sb (update_version vb once) = once
  /\ count_matches versionPrefix once = 1
  /\ count_matches sizePrefix once = 1
  /\ occurs vb once = true /\ occurs sb once = true.
Proof.
  intros Hv Hsz Hcv Hcs. cbv zeta.
  destruct (update_version_fresh (versionPrefix ++ v ++ js "-blue)") content Hcv)
    as (P & Q & E & HP & HQ).
  assert (Hlfv : ~ In Badge.LF versionPrefix).
  { intros H. simpl in H. repeat (destruct H as [H | H]; [discriminate|]). exact H. }
  assert (Hlfs : ~ In Badge.LF sizePrefix).
  { intros H. simpl in H. repeat (destruct H as [H | H]; [discriminate|]). exact H. }
  destruct (fresh_shape_quiet content (tl versionPrefix) P Q Hlfv Hcv HP HQ)
    as [HPv HQv].
  destruct (fresh_shape_quiet content (tl sizePrefix) P Q Hlfs Hcs HP HQ)
    as [HPs HQs].
  change (BANG :: tl versionPrefix) with versionPrefix in HPv, HQv.
  change (BANG :: tl sizePrefix) with sizePrefix in HPs, HQs.
  pose proof (size_step_inserts v sz Hv P Q HPv HPs HQs) as H1.
  pose proof (version_step_settled v sz Hv P Q HPv) as H2.
  pose proof (size_step_settled v sz Hv Hsz P Q HPs) as H3.
  pose proof (settled_counts v sz Hv Hsz P Q HPv HPs HQv HQs) as [Hc1 Hc2].
  pose proof (before_sb_starts_no_size v Hv P HPs) as Hb.
  cbv zeta in H1, H2, H3, Hc1, Hc2, Hb.
  rewrite E, H1, H2, H3.
  split; [reflexivity|]. split; [exact Hc1|]. split; [exact Hc2|]. split.
  - rewrite (occurs_app _ _ _ (starts_nowhere_longer versionPrefix _ _ _ (HPv _))).
    apply orb_true_iff. left. apply startsWith_app.
  - assert (E2 : forall x y : jstring,
               P ++ x ++ " "%char :: y ++ Q = (P ++ x ++ [" "%char]) ++ y ++ Q).
    { intros x y. rewrite <- !app_assoc. reflexivity. }
    rewrite E2. unfold sizeBadge.
    rewrite (occurs_app _ _ _ (starts_nowhere_longer sizePrefix _ _ _ (Hb _))).
    apply orb_true_iff. left. apply startsWith_app.
Qed.

Section UpdaterFacts.

Variable resolve : jstring -> jstring -> jstring.
Variable JSON_parse : jstring -> option Manifest.
Variable gzip_length : jstring -> N.


End UpdaterFacts.




(** ** The size step *)

Section SizeStep.

Import Badge.
Implicit Types p q s : jstring.

Lemma class_run_split s :
  s = class_run s ++ skipn (length (class_run s)) s
  /\ no_close (class_run s) = true.
Proof.
  induction s as [|c t [IH1 IH2]]; simpl; [auto|].
  destruct (not_close c) eqn:E; simpl; [|auto].
  rewrite E, IH2. split; [f_equal; exact IH1 | reflexivity].
Qed.

Lemma match_at_inv p s n :
  match_at p s = Some n ->
  exists body rest,
    s = p ++ body ++ ")"%char :: rest
    /\ body <> [] /\ no_close body = true
    /\ n = length p + length body + 1.
Proof.
  unfold match_at. destruct (startsWith s p) eqn:Hp; [|discriminate].
  apply startsWith_iff in Hp as [r ->]. rewrite skipn_length_app.
  destruct (class_run_split r) as [Er Hc].
  destruct (class_run r) as [|c body] eqn:Eb; [discriminate|].
  destruct (skipn (length (c :: body)) r) as [|d rest] eqn:Es; [discriminate|].
  destruct (Ascii.eqb_spec d ")"%char) as [-> | Hd].
  - intros [= <-]. exists (c :: body), rest.
    split; [rewrite Er at 1; reflexivity|]. split; [discriminate|]. auto.
  - intros H. exfalso.
    destruct d as [[] [] [] [] [] [] [] []]; try discriminate. congruence.
Qed.

Lemma exec_Some_inv p s i n :
  exec p s = Some (i, n) ->
  match_at p (skipn i s) = Some n
  /\ i <= length s
  /\ forall j, j < i -> match_at p (skipn j s) = None.
Proof.
  revert i. induction s as [|c t IH]; intros i; cbn [exec].
  - destruct (match_at p []) eqn:E; [|discriminate].
    intros [= <- <-]. repeat split; [exact E | lia | lia].
  - destruct (match_at p (c :: t)) as [m|] eqn:E.
    + intros [= <- <-]. repeat split; [exact E | lia | lia].
    + destruct (exec p t) as [[i' n']|]; [|discriminate].
      intros [= <- <-]. destruct (IH i' eq_refl) as (Hm & Hle & Hbefore).
      repeat split; [exact Hm | simpl; lia |].
      intros [|j] Hj; [exact E | apply Hbefore; lia].
Qed.

Lemma indexOf_Some_inv s q i :
  indexOf s q = Some i ->
  (exists r, s = firstn i s ++ q ++ r)
  /\ i <= length s
  /\ forall j, j < i -> startsWith (skipn j s) q = false.
Proof.
  revert i. induction s as [|c t IH]; intros i; cbn [indexOf].
  - destruct (startsWith [] q) eqn:E; [|discriminate].
    intros [= <-]. split; [|split; lia]. apply startsWith_iff in E. exact E.
  - destruct (startsWith (c :: t) q) eqn:E.
    + intros [= <-]. split; [|split; lia]. apply startsWith_iff in E. exact E.
    + destruct (indexOf t q) as [i'|]; [|discriminate].
      intros [= <-]. destruct (IH i' eq_refl) as ((r & Hr) & Hle & Hbefore).
      split; [|split].
      * exists r. cbn [firstn app]. f_equal. exact Hr.
      * simpl. lia.
      * intros [|j] Hj; [exact E | apply Hbefore; lia].
Qed.

Lemma indexOf_None_iff s q : indexOf s q = None <-> occurs q s = false.
Proof.
  induction s as [|c t IH]; cbn [indexOf occurs].
  - destruct (startsWith [] q); split; intros; try discriminate; reflexivity.
  - destruct (startsWith (c :: t) q); cbn [orb].
    + split; discriminate.
    + rewrite <- IH. destruct (indexOf t q); split; intros; try discriminate;
        reflexivity.
Qed.

End SizeStep.

(** C7. The size step of the updater: when the README matches the size
    pattern, the leftmost match is replaced in place by the new size badge;
    otherwise, when the version badge text occurs, a space and the size badge
    are inserted right after its first occurrence; otherwise the README is
    left as it is, without a size badge. *)
Theorem size_step_cases (vBadge content : jstring) (size : N) :
  let sBadge := sizeBadge (toFixed2_div1024 size ++ js "kB") in
  (Badge.test sizePrefix content = true ->
   exists before body after,
     content = before ++ (sizePrefix ++ body ++ [")"%char]) ++ after
     /\ body <> [] /\ no_close body = true
     /\ (forall j, j < length before ->
                   Badge.match_at sizePrefix (skipn j content) = None)
     /\ update_size vBadge sBadge content = before ++ sBadge ++ after)
  /\ (Badge.test sizePrefix content = false ->
      occurs vBadge content = true ->
      exists before after,
        content = before ++ vBadge ++ after
        /\ (forall j, j < length before ->
                      startsWith (skipn j content) vBadge = false)
        /\ update_size vBadge sBadge content
           = before ++ vBadge ++ " "%char :: sBadge ++ after)
  /\ (Badge.test sizePrefix content = false ->
      occurs vBadge content = false ->
      update_size vBadge sBadge content = content
      /\ Badge.test sizePrefix (update_size vBadge sBadge content) = false).
Proof.
  intros sBadge. unfold update_size, Badge.replace, Badge.test.
  split; [|split].
  - destruct (Badge.exec sizePrefix content) as [[i n]|] eqn:E; [|discriminate].
    intros _. destruct (exec_Some_inv _ _ _ _ E) as (Hm & Hle & Hbefore).
    destruct (match_at_inv _ _ _ Hm) as (body & rest & Hs & Hne & Hc & ->).
    exists (firstn i content), body, rest.
    assert (Hlen : length (firstn i content) = i) by (rewrite length_firstn; lia).
    split; [|split; [exact Hne | split; [exact Hc | split]]].
    + rewrite <- (firstn_skipn i content) at 1. rewrite Hs, <- !app_assoc.
      reflexivity.
    + intros j Hj. apply Hbefore. lia.
    + rewrite substitution_plain by (apply sb_no_dollar, sizeStr_chars).
      do 2 f_equal. rewrite <- drop_drop, Hs.
      apply skipn_past_badge.
  - destruct (Badge.exec sizePrefix content); [discriminate|]. intros _ Ho.
    destruct (indexOf content vBadge) as [i|] eqn:E.
    + destruct (indexOf_Some_inv _ _ _ E) as ((r & Hr) & Hle & Hbefore).
      assert (Hlen : length (firstn i content) = i) by (rewrite length_firstn; lia).
      exists (firstn i content), r. split; [exact Hr|]. split.
      * intros j Hj. apply Hbefore. lia.
      * unfold slice_to, slice_from. clear E Hbefore Ho Hle.
        remember (firstn i content) as before eqn:Hb. clear Hb.
        subst i content.
        rewrite firstn_length_app2, skipn_length_app2, <- app_assoc. reflexivity.
    + apply indexOf_None_iff in E. congruence.
  - destruct (Badge.exec sizePrefix content) eqn:Ex; [discriminate|]. intros _ Ho.
    apply indexOf_None_iff in Ho. rewrite Ho, Ex. auto.
Qed.

Lemma size_step_cases_witness :
  let sBadge := sizeBadge (toFixed2_div1024 1234 ++ js "kB") in
  (exists before body after,
      readme_with_size = before ++ (sizePrefix ++ body ++ [")"%char]) ++ after
      /\ body <> [] /\ no_close body = true
      /\ (forall j, j < length before ->
                    Badge.match_at sizePrefix (skipn j readme_with_size) = None)
      /\ update_size demo_version_badge sBadge readme_with_size
         = before ++ sBadge ++ after)
  /\ (exists before after,
         readme_with_version = before ++ demo_version_badge ++ after
         /\ (forall j, j < length before ->
                       startsWith (skipn j readme_with_version) demo_version_badge
                       = false)
         /\ update_size demo_version_badge sBadge readme_with_version
            = before ++ demo_version_badge ++ " "%char :: sBadge ++ after)
  /\ (update_size demo_version_badge sBadge readme_plain = readme_plain
      /\ Badge.test sizePrefix (update_size demo_version_badge sBadge readme_plain)
         = false).
Proof.
  intros sBadge. split; [|split].
  - apply (proj1 (size_step_cases demo_version_badge readme_with_size 1234)).
    vm_compute. reflexivity.
  - apply (proj1 (proj2 (size_step_cases demo_version_badge readme_with_version 1234)));
      vm_compute; reflexivity.
  - apply (proj2 (proj2 (size_step_cases demo_version_badge readme_plain 1234)));
      vm_compute; reflexivity.
Defined.

(** * Further properties of the code *)

(** ** The assembler: which calls succeed *)





(** ** The assembler: shape of the descriptors *)

Lemma outputConfig_shape resolve options dir pkg f o :
  outputConfig resolve options dir pkg f = Ok o ->
  (is_umd_or_iife f = false
   /\ out_dir o = Some (outputPath resolve options dir)
   /\ out_file o = None
   /\ out_preserveModules o = Some true
   /\ out_name o = None /\ out_globals o = None)
  \/ (is_umd_or_iife f = true
      /\ out_dir o = None
      /\ out_file o
         = Some (resolve (outputPath resolve options dir)
                   (js "index." ++ f ++ js ".js"))
      /\ out_preserveModules o = Some false
      /\ out_entryFileNames o = None /\ out_chunkFileNames o = None
      /\ out_globals o = Some (default [] (globals options))).
Proof.
  unfold outputConfig.
  destruct (is_esm f) eqn:He.
  { intros [= <-]. left. simpl.
    unfold is_esm in He. apply orb_true_iff in He as [He | He];
      apply eqb_true_iff in He; subst f; repeat split; reflexivity. }
  destruct (is_cjs f) eqn:Hc.
  { intros [= <-]. left. simpl.
    apply eqb_true_iff in Hc. subst f. repeat split; reflexivity. }
  destruct (is_umd_or_iife f) eqn:Hu.
  - intros H. right.
    assert (exists exposed,
               o = {| out_dir := None; out_format := f;
                      out_sourcemap := Some (the_sourcemap options);
                      out_preserveModules := Some false;
                      out_preserveModulesRoot := Some (resolve dir (js "src"));
                      out_exports := Some (js "named");
                      out_entryFileNames := None; out_chunkFileNames := None;
                      out_file :=
                        Some (resolve (outputPath resolve options dir)
                                (js "index."
                                 ++ (if JsString.eqb f (js "umd")
                                     then js "umd" else js "iife")
                                 ++ js ".js"));
                      out_name := Some exposed;
                      out_globals := Some (default [] (globals options)) |})
      as [exposed ->].
    { destruct (truthy (name options)); simpl in H.
      - injection H as <-. eauto.
      - destruct (pkg_name pkg); simpl in H; [|discriminate].
        injection H as <-. eauto. }
    simpl. destruct (umd_or_iife_cases f Hu) as [-> | ->];
      repeat split; reflexivity.
  - pose proof Hu as Hu'. unfold is_umd_or_iife in Hu'.
    apply orb_false_iff in Hu' as [H1 H2]. rewrite H1, H2.
    intros [= <-]. left. repeat split; reflexivity.
Qed.

(** X2. Every descriptor [createConfig] returns writes either into the output
    directory or to one file, never both.  A format descriptor is single-file
    exactly for [umd] and [iife], where the file is [index.<format>.js]
    under the output directory, module structure is not preserved and the
    caller's [globals] (or none) are attached; every other format writes
    into the output directory with module structure preserved and carries
    neither a global name nor globals.  The declaration descriptor writes the
    one file [index.d.ts]. *)
Theorem output_dir_or_file resolve JSON_parse options watch fs configs :
  createConfig resolve JSON_parse options watch fs = Ok configs ->
  exists dir,
    packageDir options = Some dir
    /\ forall d, In d configs ->
         let o := d_output d in
         let out := resolve dir (default (js "dist") (outputDir options)) in
         (is_umd_or_iife (out_format o) = false
          /\ out_dir o = Some out /\ out_file o = None
          /\ out_preserveModules o = Some true
          /\ out_name o = None /\ out_globals o = None)
         \/ (is_umd_or_iife (out_format o) = true
             /\ out_dir o = None
             /\ out_file o = Some (resolve out (js "index." ++ out_format o ++ js ".js"))
             /\ out_preserveModules o = Some false
             /\ out_globals o = Some (default [] (globals options)))
         \/ (exists t, d_plugins d = [DtsPlugin t])
            /\ out_dir o = None
            /\ out_file o = Some (resolve out (js "index.d.ts")).
Proof.
  intros H.
  apply createConfig_inv in H as (dir & pkg & ds & Hdir & _ & _ & Hall & ->).
  exists dir. split; [exact Hdir|]. intros d Hin. cbv zeta.
  apply in_app_or in Hin as [Hin | Hin].
  - apply (Forall2_In_r _ _ _ _ Hall) in Hin as (f & _ & Hfd).
    apply format_descriptor_inv in Hfd as (_ & _ & _ & Ho).
    pose proof (outputConfig_format _ _ _ _ _ _ Ho) as Hf.
    destruct (outputConfig_shape _ _ _ _ _ _ Ho)
      as [(H1 & H2 & H3 & H4 & H5 & H6) | (H1 & H2 & H3 & H4 & _ & _ & H7)];
      rewrite Hf.
    + left. repeat split; assumption.
    + right; left. repeat split; assumption.
  - destruct (generateDts options); [|destruct Hin].
    destruct Hin as [<- | []]. right; right.
    split; [eexists; reflexivity | split; reflexivity].
Qed.

Lemma output_dir_or_file_witness :
  exists configs,
    createConfig resolve_join parse_demo
      (with_formats [js "esm"; js "iife"] demo_options) None demo_fs = Ok configs
    /\ forall d, In d configs ->
         out_dir (d_output d) = None <-> out_file (d_output d) <> None.
Proof.
  destruct (createConfig resolve_join parse_demo
              (with_formats [js "esm"; js "iife"] demo_options) None demo_fs)
    as [cs|e] eqn:H; [|vm_compute in H; discriminate].
  exists cs. split; [reflexivity|].
  destruct (output_dir_or_file _ _ _ _ _ _ H) as (dir & _ & Hshape).
  intros d Hin.
  destruct (Hshape d Hin)
    as [(_ & H2 & H3 & _) | [(_ & H2 & H3 & _) | (_ & H2 & H3)]];
    rewrite H2, H3; split; congruence.
Defined.

(** ** The single-output wrapper *)

(** X3. [createSimpleConfig] fails exactly as [createConfig] fails on the
    same package; when it returns, it returns one descriptor (never
    [undefined]) for the requested format, [esm] when none is given, which
    is a format descriptor.  Because it overwrites them, the caller's
    [formats] and [dts] options have no effect on it. *)
Theorem createSimpleConfig_one_format resolve JSON_parse options format watch fs :
  let f := if truthy format then default [] format else js "esm" in
  (forall r,
      createSimpleConfig resolve JSON_parse options format watch fs = Ok r ->
      exists d,
        r = Some d
        /\ out_format (d_output d) = f
        /\ (forall t, ~ In (DtsPlugin t) (d_plugins d))
        /\ createConfig resolve JSON_parse (simple_options format options) watch fs
           = Ok [d])
  /\ (forall e,
         createSimpleConfig resolve JSON_parse options format watch fs = Throw e
         <-> createConfig resolve JSON_parse
               (with_dts false (with_formats [f] options)) watch fs = Throw e)
  /\ (forall fmts b,
         createSimpleConfig resolve JSON_parse
           (with_dts b (with_formats fmts options)) format watch fs
         = createSimpleConfig resolve JSON_parse options format watch fs).
Proof.
  intros f. split; [|split].
  - intros r H. unfold createSimpleConfig in H.
    destruct (createConfig resolve JSON_parse (simple_options format options)
                watch fs) as [configs|e] eqn:Hc; simpl in H; [|discriminate].
    injection H as <-.
    apply createConfig_inv in Hc as (dir & pkg & ds & _ & _ & _ & Hall & ->).
    change (the_formats (simple_options format options)) with [f] in Hall.
    change (generateDts (simple_options format options)) with false in *.
    inversion Hall as [|f' d l ds' Hd Hrest]; subst.
    inversion Hrest; subst. exists d.
    apply format_descriptor_inv in Hd as (_ & Hp & _ & Ho).
    split; [reflexivity|].
    split; [eapply outputConfig_format; eassumption|].
    split; [|reflexivity].
    intros t. rewrite Hp. apply format_plugins_no_dts.
  - intros e. unfold createSimpleConfig.
    change (with_dts false (with_formats [f] options))
      with (simple_options format options).
    destruct (createConfig resolve JSON_parse (simple_options format options)
                watch fs); simpl; split; congruence.
  - intros fmts b. reflexivity.
Qed.

Lemma createSimpleConfig_one_format_witness :
  exists d,
    createSimpleConfig resolve_join parse_demo demo_options (Some (js "cjs"))
      None demo_fs = Ok (Some d)
    /\ out_format (d_output d) = js "cjs".
Proof.
  destruct (createSimpleConfig resolve_join parse_demo demo_options
              (Some (js "cjs")) None demo_fs) as [r|e] eqn:H;
    [|vm_compute in H; discriminate].
  destruct (proj1 (createSimpleConfig_one_format resolve_join parse_demo
                     demo_options (Some (js "cjs")) None demo_fs) r H)
    as (d & -> & Hf & _).
  exists d. split; [reflexivity | exact Hf].
Defined.

(** ** The TypeScript project file *)

(** X4. All descriptors of one call use the same TypeScript project file,
    both in the compilation step and in the declaration step:
    [tsconfig.build.json] of the package when it exists, else the package's
    [tsconfig.json] when that exists, else [../../tsconfig.json], which is
    taken whether or not it exists. *)
Theorem one_project_file resolve JSON_parse options watch fs configs :
  createConfig resolve JSON_parse options watch fs = Ok configs ->
  exists dir chosen,
    packageDir options = Some dir
    /\ (forall d p, In d configs -> In p (d_plugins d) ->
          match p with
          | Typescript t _ _ _ _ => t = chosen
          | DtsPlugin t => t = chosen
          | _ => True
          end)
    /\ (fs !! resolve dir (js "tsconfig.build.json") <> None ->
        chosen = resolve dir (js "tsconfig.build.json"))
    /\ (fs !! resolve dir (js "tsconfig.build.json") = None ->
        fs !! resolve dir (js "tsconfig.json") <> None ->
        chosen = resolve dir (js "tsconfig.json"))
    /\ (fs !! resolve dir (js "tsconfig.build.json") = None ->
        fs !! resolve dir (js "tsconfig.json") = None ->
        chosen = resolve dir (js "../../tsconfig.json")).
Proof.
  intros H.
  apply createConfig_inv in H as (dir & pkg & ds & Hdir & _ & _ & Hall & ->).
  exists dir, (getTsConfigPath resolve fs dir).
  split; [exact Hdir|]. split.
  - intros d p Hin Hp. apply in_app_or in Hin as [Hin | Hin].
    + apply (Forall2_In_r _ _ _ _ Hall) in Hin as (f & _ & Hfd).
      apply format_descriptor_inv in Hfd as (_ & Hpl & _).
      rewrite Hpl, format_plugins_eq in Hp.
      destruct (enableBabel options), (default true (minify options)),
        (is_esm f && negb (truthy watch)); simpl in Hp;
        repeat (destruct Hp as [<- | Hp]; [exact I || reflexivity|]);
        destruct Hp.
    + destruct (generateDts options); [|destruct Hin].
      destruct Hin as [<- | []]. destruct Hp as [<- | []]. reflexivity.
  - unfold getTsConfigPath, existsSync.
    destruct (fs !! resolve dir (js "tsconfig.build.json"));
      destruct (fs !! resolve dir (js "tsconfig.json"));
      repeat split; intros; congruence.
Qed.

Lemma one_project_file_witness :
  exists configs,
    createConfig resolve_join parse_demo demo_options None tsconfig_fs = Ok configs
    /\ forall d p, In d configs -> In p (d_plugins d) ->
                   project_file p = None
                   \/ project_file p = Some (js "/pkg/tsconfig.json").
Proof.
  destruct (createConfig resolve_join parse_demo demo_options None tsconfig_fs)
    as [cs|e] eqn:H; [|vm_compute in H; discriminate].
  exists cs. split; [reflexivity|].
  destruct (one_project_file _ _ _ _ _ _ H) as (dir & chosen & Hdir & Hall & _ & Hpkg & _).
  injection Hdir as <-.
  assert (Hc : chosen = js "/pkg/tsconfig.json").
  { apply Hpkg; vm_compute; [reflexivity | discriminate]. }
  intros d p Hd Hp. specialize (Hall d p Hd Hp).
  destruct p; cbn [project_file]; try (left; reflexivity);
    right; rewrite Hall, Hc; reflexivity.
Defined.

(** ** Externality: what is never external *)

(** X5. A relative, absolute or drive-letter-rooted specifier is bundled
    whatever the manifest and the caller list, also when the caller lists
    that very specifier as external; and listing more dependencies never
    turns an external specifier into a bundled one. *)
Theorem rooted_never_external :
  (forall deps id, rooted id -> isExternal deps id = false)
  /\ (forall deps more id,
         isExternal deps id = true -> isExternal (deps ++ more) id = true)
  /\ (forall deps more id,
         isExternal more id = true -> isExternal (deps ++ more) id = true).
Proof.
  split; [|split].
  - intros deps id Hr. destruct (isExternal deps id) eqn:E; [|reflexivity].
    apply isExternal_iff in E as [Hn _]. contradiction.
  - intros deps more id H. apply isExternal_iff in H as (Hn & dep & Hin & Hd).
    apply isExternal_iff. split; [exact Hn|]. exists dep.
    split; [apply in_or_app; left; exact Hin | exact Hd].
  - intros deps more id H. apply isExternal_iff in H as (Hn & dep & Hin & Hd).
    apply isExternal_iff. split; [exact Hn|]. exists dep.
    split; [apply in_or_app; right; exact Hin | exact Hd].
Qed.

Lemma rooted_never_external_witness :
  isExternal [js "./local"; js "C:/lib"] (js "./local") = false
  /\ isExternal [js "./local"; js "C:/lib"] (js "C:/lib/x") = false.
Proof.
  split; apply (proj1 rooted_never_external).
  - left. exists (js "/local"). reflexivity.
  - right; right. exists "C"%char, (js "/lib/x"). split; reflexivity.
Defined.

(** ** Failures of reading the manifest *)

(** X6. Besides the two configuration errors, [createConfig] lets the
    failures of reading the manifest through to its caller: a manifest whose
    text does not parse gives the [SyntaxError] of [JSON.parse], and a
    [package.json] that is a directory gives the [EISDIR] error of
    [readFileSync]. *)
Theorem manifest_read_errors resolve JSON_parse options watch fs dir :
  packageDir options = Some dir ->
  dir <> [] ->
  (forall text writable,
      fs !! resolve dir (js "package.json") = Some (File text writable) ->
      JSON_parse text = None ->
      createConfig resolve JSON_parse options watch fs = Throw SyntaxError)
  /\ (fs !! resolve dir (js "package.json") = Some Dir ->
      createConfig resolve JSON_parse options watch fs
      = Throw (FsError (js "EISDIR"))).
Proof.
  intros Hdir Hne.
  assert (E : createConfig resolve JSON_parse options watch fs
              = do pkg <- getPackageJson resolve JSON_parse fs dir;
                assemble_configs resolve options watch fs dir pkg).
  { unfold createConfig. rewrite Hdir. destruct dir; [congruence | reflexivity]. }
  rewrite E. unfold getPackageJson, existsSync, readFileSync. split.
  - intros text writable Hf Hj. rewrite Hf. cbn [negb bind]. rewrite Hj. reflexivity.
  - intros Hf. rewrite Hf. reflexivity.
Qed.

Lemma manifest_read_errors_witness :
  createConfig resolve_join parse_demo demo_options None broken_fs
  = Throw SyntaxError
  /\ createConfig resolve_join parse_demo demo_options None dir_manifest_fs
     = Throw (FsError (js "EISDIR")).
Proof.
  split.
  - apply (proj1 (manifest_read_errors resolve_join parse_demo demo_options None
                    broken_fs (js "/pkg") eq_refl ltac:(discriminate))
             (js "{") true); vm_compute; reflexivity.
  - apply (proj2 (manifest_read_errors resolve_join parse_demo demo_options None
                    dir_manifest_fs (js "/pkg") eq_refl ltac:(discriminate))).
    vm_compute. reflexivity.
Defined.

(** ** What the assembler reads *)




(** ** Compiler option overrides *)

Lemma assoc_absent {V : Type} (k : jstring) (l : list (jstring * V)) :
  ~ In k (map fst l) -> assoc k l = None.
Proof.
  induction l as [|[k' v] l IH]; simpl; [reflexivity|].
  intros H. destruct (JsString.eqb k k') eqn:E.
  - apply eqb_true_iff in E. subst. exfalso. apply H. left. reflexivity.
  - apply IH. intros Hin. apply H. right. exact Hin.
Qed.

(** With the keys of an object distinct, a spread takes every entry of the
    overriding object and keeps the other entries of the base. *)
Lemma assoc_spread {V : Type} (k : jstring) (base over : list (jstring * V)) :
  NoDup (map fst over) ->
  assoc k (spread base over)
  = match assoc k over with
    | Some v => Some v
    | None => assoc k base
    end.
Proof.
  unfold spread. revert base.
  induction over as [|[k' v] over IH]; intros base Hnd; simpl; [reflexivity|].
  apply NoDup_cons in Hnd as [Hk Hnd]. rewrite (IH _ Hnd).
  destruct (JsString.eqb k k') eqn:E.
  - apply eqb_true_iff in E. subst k'.
    rewrite (assoc_absent k over) by (rewrite <- list_elem_of_In; exact Hk).
    rewrite assoc_set_key, eqb_refl. reflexivity.
  - destruct (assoc k over); [reflexivity|].
    rewrite assoc_set_key, E. reflexivity.
Qed.

(** X8. In the TypeScript step of every format descriptor, each compiler
    option the caller gives in [tsconfig] is passed on with the caller's
    value, including [target], [outDir] and [rootDir]; an option the caller
    does not give has the assembler's value for these three and is absent
    otherwise. *)
Theorem tsconfig_overrides_win resolve JSON_parse options watch fs configs :
  createConfig resolve JSON_parse options watch fs = Ok configs ->
  NoDup (map fst (default [] (tsconfig options))) ->
  exists dir,
    packageDir options = Some dir
    /\ forall d t dcl dmap sm co,
         In d configs ->
         In (Typescript t dcl dmap sm co) (d_plugins d) ->
         forall k,
           assoc k co
           = match assoc k (default [] (tsconfig options)) with
             | Some v => Some v
             | None =>
                 assoc k [ (js "target", TsStr (js "ESNext"));
                           (js "outDir",
                            TsStr (resolve dir (default (js "dist")
                                                  (outputDir options))));
                           (js "rootDir", TsStr (resolve dir (js "src"))) ]
             end.
Proof.
  intros H Hnd.
  apply createConfig_inv in H as (dir & pkg & ds & Hdir & _ & _ & Hall & ->).
  exists dir. split; [exact Hdir|].
  intros d t dcl dmap sm co Hin Hp k.
  assert (Hco : co = spread [ (js "target", TsStr (js "ESNext"));
                              (js "outDir", TsStr (outputPath resolve options dir));
                              (js "rootDir", TsStr (resolve dir (js "src"))) ]
                       (additionalTsConfig options)).
  { apply in_app_or in Hin as [Hin | Hin].
    - apply (Forall2_In_r _ _ _ _ Hall) in Hin as (f & _ & Hfd).
      apply format_descriptor_inv in Hfd as (_ & Hpl & _).
      rewrite Hpl, format_plugins_eq in Hp.
      destruct (enableBabel options), (default true (minify options)),
        (is_esm f && negb (truthy watch)); simpl in Hp;
        repeat (destruct Hp as [Hp | Hp];
                [try discriminate Hp; injection Hp as _ _ _ _ <-; reflexivity|]);
        destruct Hp.
    - destruct (generateDts options); [|destruct Hin].
      destruct Hin as [<- | []]. destruct Hp as [Hp | []]. discriminate Hp. }
  rewrite Hco. apply assoc_spread. exact Hnd.
Qed.

Lemma tsconfig_overrides_win_witness :
  exists configs,
    createConfig resolve_join parse_demo
      (with_tsconfig [(js "target", TsStr (js "ES5")); (js "strict", TsBool true)]
         demo_options) None demo_fs = Ok configs
    /\ forall d t dcl dmap sm co,
         In d configs ->
         In (Typescript t dcl dmap sm co) (d_plugins d) ->
         assoc (js "target") co = Some (TsStr (js "ES5"))
         /\ assoc (js "strict") co = Some (TsBool true)
         /\ assoc (js "rootDir") co = Some (TsStr (js "/pkg/src"))
         /\ assoc (js "noEmit") co = None.
Proof.
  destruct (createConfig resolve_join parse_demo
              (with_tsconfig [(js "target", TsStr (js "ES5"));
                              (js "strict", TsBool true)] demo_options)
              None demo_fs) as [cs|e] eqn:H; [|vm_compute in H; discriminate].
  exists cs. split; [reflexivity|].
  assert (Hnd : NoDup (map fst (default [] (tsconfig
                  (with_tsconfig [(js "target", TsStr (js "ES5"));
                                  (js "strict", TsBool true)] demo_options))))).
  { apply (bool_decide_unpack _). vm_compute. exact I. }
  destruct (tsconfig_overrides_win _ _ _ _ _ _ H Hnd) as (dir & Hdir & Hk).
  injection Hdir as <-.
  intros d t dcl dmap sm co Hd Hp.
  rewrite !(Hk d t dcl dmap sm co Hd Hp). repeat split; reflexivity.
Defined.

(** ** The badge updater: what it touches *)

Lemma update_body_inv resolve JSON_parse gzip_length dir bundle fs fs' :
  update_body resolve JSON_parse gzip_length dir bundle fs = Ok fs' ->
  exists pkg old,
    fs !! resolve dir (js "README.md") = Some (File old true)
    /\ fs' = <[resolve dir (js "README.md")
               := File (new_content gzip_length pkg bundle old) true]> fs.
Proof.
  unfold update_body, readFileSync, writeFileSync.
  destruct (fs !! resolve dir (js "package.json")) as [[text w|]|];
    cbn [bind]; try discriminate.
  destruct (JSON_parse text) as [pkg|]; cbn [bind]; [|discriminate].
  destruct (fs !! resolve dir (js "README.md")) as [[old [|]|]|] eqn:Hr;
    cbn [bind]; try discriminate.
  intros [= <-]. eauto.
Qed.

(** X9. A run of the updater changes at most the README: every other path,
    the manifest among them, reads as before; a README is neither created
    nor removed, and one that is rewritten stays a writable file.  A run
    either rewrites the README and logs nothing, or leaves all files as they
    were. *)
Theorem updater_touches_only_readme
    resolve JSON_parse gzip_length dir bundle w w' :
  writeBundle resolve JSON_parse gzip_length dir bundle w = Ok w' ->
  (forall path, path <> resolve dir (js "README.md") ->
                w_fs w' !! path = w_fs w !! path)
  /\ existsSync (w_fs w') (resolve dir (js "README.md"))
     = existsSync (w_fs w) (resolve dir (js "README.md"))
  /\ (w_fs w' = w_fs w
      \/ w_stderr w' = w_stderr w
         /\ exists pkg old,
             w_fs w !! resolve dir (js "README.md") = Some (File old true)
             /\ w_fs w' !! resolve dir (js "README.md")
                = Some (File (new_content gzip_length pkg bundle old) true)).
Proof.
  unfold writeBundle.
  destruct (negb _ || negb _).
  { intros [= <-]. auto. }
  destruct (update_body resolve JSON_parse gzip_length dir bundle (w_fs w))
    as [fs'|e] eqn:Hb; cbn [bind try_catch].
  - intros [= <-]. cbn [w_fs w_stderr].
    apply update_body_inv in Hb as (pkg & old & Hr & ->).
    split; [|split].
    + intros path Hne. apply lookup_insert_ne. congruence.
    + unfold existsSync. rewrite lookup_insert_eq, Hr. reflexivity.
    + right. split; [reflexivity|]. exists pkg, old.
      split; [exact Hr | apply lookup_insert_eq].
  - intros [= <-]. auto.
Qed.

Lemma updater_touches_only_readme_witness :
  exists w',
    writeBundle resolve_join parse_demo gzip_identity (js "/pkg") [Chunk (js "x")]
      (world_of demo_fs) = Ok w'
    /\ w_fs w' !! js "/pkg/package.json" = Some (File (js "{demo}") true).
Proof.
  destruct (writeBundle resolve_join parse_demo gzip_identity (js "/pkg")
              [Chunk (js "x")] (world_of demo_fs)) as [w'|e] eqn:H;
    [|vm_compute in H; discriminate].
  exists w'. split; [reflexivity|].
  destruct (updater_touches_only_readme _ _ _ _ _ _ _ H) as (Hframe & _).
  rewrite Hframe; [vm_compute; reflexivity | vm_compute; discriminate].
Defined.

(** ** The badge updater: a new version or size over old badges *)

(** The place of a freshly inserted version badge depends on the README
    only, not on the badge. *)
Lemma update_version_fresh_uniform content :
  occurs versionPrefix content = false ->
  exists P Q,
    (forall vBadge, update_version vBadge content = P ++ vBadge ++ Q)
    /\ (P = [] \/ exists A, P = A ++ [Badge.LF; Badge.LF] /\ inherits content A)
    /\ (Q = [] \/ exists B, Q = Badge.LF :: B /\ inherits content B).
Proof.
  intros Hfree.
  pose proof (split_lines_inherit content) as Hall.
  destruct (split_lines_first content) as (l0 & ls0 & rest0 & Hne & _).
  destruct (Badge.findIndex (fun line => startsWith line (js "# "))
              (Badge.split_lines content)) as [t|] eqn:Ht.
  - pose proof (findIndex_lt _ _ _ Ht) as Hlt.
    set (F := firstn (t + 1) (Badge.split_lines content)).
    set (R := skipn (t + 1) (Badge.split_lines content)).
    assert (HF : F <> []).
    { unfold F. rewrite Hne, Nat.add_1_r. discriminate. }
    assert (HAF : inherits content (Badge.join F)).
    { apply inherits_lines. apply Forall_take. exact Hall. }
    exists (Badge.join F ++ [Badge.LF; Badge.LF]).
    exists (match R with [] => [] | _ :: _ => Badge.LF :: Badge.join R end).
    split; [|split].
    + intros vBadge. unfold update_version, Badge.test.
      rewrite (exec_free _ _ Hfree), Ht. unfold Badge.splice_insert.
      fold F R. rewrite (join_app F (_ :: R) HF) by discriminate.
      destruct R as [|r R'].
      * simpl Badge.join. rewrite app_nil_r, <- app_assoc. reflexivity.
      * rewrite join_cons by discriminate. rewrite <- !app_assoc. reflexivity.
    + right. exists (Badge.join F). auto.
    + destruct R as [|r R'] eqn:ER; [left; reflexivity|].
      right. exists (Badge.join (r :: R')). split; [reflexivity|].
      apply inherits_lines. rewrite <- ER. apply Forall_drop. exact Hall.
  - exists [], (Badge.LF :: Badge.LF :: Badge.join (Badge.split_lines content)).
    split; [|split].
    + intros vBadge. unfold update_version, Badge.test.
      rewrite (exec_free _ _ Hfree), Ht.
      rewrite join_cons by (rewrite Hne; discriminate).
      rewrite <- app_assoc. reflexivity.
    + left. reflexivity.
    + right. exists (Badge.LF :: Badge.join (Badge.split_lines content)).
      split; [reflexivity|].
      intros p Hp Hlf Hc. rewrite (occurs_lf_cons p _ Hp Hlf).
      apply (inherits_lines content _ Hall); assumption.
Qed.

Section NewOverOld.

Import Badge.

Variable v1 v2 sz1 sz2 : jstring.
Hypothesis Hv1 : plain_version v1 = true.
Hypothesis Hv2 : plain_version v2 = true.
Hypothesis Hsz1 : forallb size_char sz1 = true.
Hypothesis Hsz2 : forallb size_char sz2 = true.

Variable P Q : jstring.
Hypothesis HPv : forall r, starts_nowhere versionPrefix P r = true.
Hypothesis HPs : forall r, starts_nowhere sizePrefix P r = true.

(** The version step puts the new badge where the old one is. *)
Lemma version_step_replaces r :
  update_version (versionPrefix ++ v2 ++ js "-blue)")
    (P ++ (versionPrefix ++ v1 ++ js "-blue)") ++ r)
  = P ++ (versionPrefix ++ v2 ++ js "-blue)") ++ r.
Proof.
  unfold update_version, test, replace.
  rewrite (exec_app _ _ _ (HPv _)), (exec_here _ _ _ (match_vb v1 Hv1 _)).
  cbn [option_map shift fst snd].
  rewrite Nat.add_0_r. rewrite (firstn_length_app P).
  rewrite (substitution_plain _ _ _ _ (vb_no_dollar v2 Hv2)).
  rewrite (skipn_length_app2 P (versionPrefix ++ v1 ++ js "-blue)")).
  reflexivity.
Qed.

(** The size step puts the new badge where the old one is. *)
Lemma size_step_replaces vBadge r :
  update_size vBadge (sizeBadge sz2)
    ((P ++ (versionPrefix ++ v2 ++ js "-blue)") ++ [" "%char])
     ++ sizeBadge sz1 ++ r)
  = (P ++ (versionPrefix ++ v2 ++ js "-blue)") ++ [" "%char])
    ++ sizeBadge sz2 ++ r.
Proof.
  unfold update_size, test, replace.
  pose proof (before_sb_starts_no_size v2 Hv2 P HPs) as Hb. cbv zeta in Hb.
  rewrite (exec_app _ _ _ (Hb _)), (exec_here _ _ _ (match_sb sz1 Hsz1 _)).
  cbn [option_map shift fst snd].
  rewrite Nat.add_0_r.
  rewrite (firstn_length_app (P ++ (versionPrefix ++ v2 ++ js "-blue)") ++ [" "%char])).
  rewrite (substitution_plain _ _ _ _ (sb_no_dollar sz2 Hsz2)).
  rewrite (skipn_length_app2
             (P ++ (versionPrefix ++ v2 ++ js "-blue)") ++ [" "%char])
             (sizeBadge sz1)).
  reflexivity.
Qed.

Lemma pass_over_old :
  update_size (versionPrefix ++ v2 ++ js "-blue)") (sizeBadge sz2)
    (update_version (versionPrefix ++ v2 ++ js "-blue)")
       (P ++ (versionPrefix ++ v1 ++ js "-blue)")
        ++ " "%char :: sizeBadge sz1 ++ Q))
  = P ++ (versionPrefix ++ v2 ++ js "-blue)") ++ " "%char :: sizeBadge sz2 ++ Q.
Proof.
  rewrite version_step_replaces.
  assert (E : forall x y : jstring,
             P ++ x ++ " "%char :: y ++ Q = (P ++ x ++ [" "%char]) ++ y ++ Q).
  { intros x y. rewrite <- !app_assoc. reflexivity. }
  rewrite !E. apply size_step_replaces.
Qed.

End NewOverOld.

(** X10. Updating over the badges of an earlier run gives the README a
    first run with the new values would have given: if neither badge's
    opening text occurs in the original README and both versions are made of
    version characters, then running the updater for one version and bundle
    and then for another version and bundle leaves what a single run for the
    second would leave, with each badge pattern matching once and the new
    version badge in it. *)
Theorem bump_equals_fresh gzip_length pkg1 pkg2 bundle1 bundle2 content :
  plain_version (template (pkg_version pkg1)) = true ->
  plain_version (template (pkg_version pkg2)) = true ->
  occurs versionPrefix content = false ->
  occurs sizePrefix content = false ->
  let fresh := new_content gzip_length pkg2 bundle2 content in
  new_content gzip_length pkg2 bundle2
    (new_content gzip_length pkg1 bundle1 content) = fresh
  /\ count_matches versionPrefix fresh = 1
  /\ count_matches sizePrefix fresh = 1
  /\ occurs (versionBadge (pkg_version pkg2)) fresh = true.
Proof.
  intros Hv1 Hv2 Hcv Hcs. cbv zeta.
  pose proof (sizeStr_chars (total_size gzip_length bundle1)) as Hs1.
  pose proof (sizeStr_chars (total_size gzip_length bundle2)) as Hs2.
  destruct (two_passes _ _ content Hv2 Hs2 Hcv Hcs) as (_ & Hc1 & Hc2 & Ho & _).
  split; [|split; [exact Hc1 | split; [exact Hc2 | exact Ho]]].
  destruct (update_version_fresh_uniform content Hcv) as (P & Q & E & HP & HQ).
  assert (Hlfv : ~ In Badge.LF versionPrefix).
  { intros H. simpl in H. repeat (destruct H as [H | H]; [discriminate|]). exact H. }
  assert (Hlfs : ~ In Badge.LF sizePrefix).
  { intros H. simpl in H. repeat (destruct H as [H | H]; [discriminate|]). exact H. }
  destruct (fresh_shape_quiet content (tl versionPrefix) P Q Hlfv Hcv HP HQ)
    as [HPv HQv].
  destruct (fresh_shape_quiet content (tl sizePrefix) P Q Hlfs Hcs HP HQ)
    as [HPs HQs].
  change (BANG :: tl versionPrefix) with versionPrefix in HPv, HQv.
  change (BANG :: tl sizePrefix) with sizePrefix in HPs, HQs.
  pose proof (size_step_inserts _
                (toFixed2_div1024 (total_size gzip_length bundle1) ++ js "kB")
                Hv1 P Q HPv HPs HQs) as H1.
  pose proof (size_step_inserts _
                (toFixed2_div1024 (total_size gzip_length bundle2) ++ js "kB")
                Hv2 P Q HPv HPs HQs) as H2.
  pose proof (pass_over_old _ _ _ _ Hv1 Hv2 Hs1 Hs2 P Q HPv HPs) as H3.
  cbv zeta in H1, H2.
  unfold new_content, versionBadge. rewrite !E, H1, H2.
  exact H3.
Qed.

Lemma bump_equals_fresh_witness :
  new_content gzip_identity nameless_manifest [Chunk (js "xyz"); Asset]
    (new_content gzip_identity demo_manifest [Chunk (js "x")] (js "# my-lib"))
  = new_content gzip_identity nameless_manifest [Chunk (js "xyz"); Asset]
      (js "# my-lib").
Proof.
  apply (bump_equals_fresh gzip_identity demo_manifest nameless_manifest
           [Chunk (js "x")] [Chunk (js "xyz"); Asset] (js "# my-lib"));
    reflexivity.
Defined.

(** ** The badge updater: lines and line endings *)

Lemma split_lines_nonempty s : Badge.split_lines s <> [].
Proof.
  destruct (split_lines_first s) as (l & ls & rest & E & _). rewrite E. discriminate.
Qed.

Lemma join_push c l ls : Badge.join ((c :: l) :: ls) = c :: Badge.join (l :: ls).
Proof. destruct ls; reflexivity. Qed.

Lemma join_split_lines s :
  Badge.join (Badge.split_lines s) = normalize_newlines s.
Proof.
  induction s as [|c t IH]; [reflexivity|].
  cbn [Badge.split_lines normalize_newlines].
  destruct (Ascii.eqb_spec c Badge.LF) as [-> | Hc].
  - change (Ascii.eqb Badge.LF Badge.CR) with false. cbn [andb].
    rewrite join_cons by apply split_lines_nonempty. rewrite IH. reflexivity.
  - destruct (Ascii.eqb c Badge.CR && startsWith t [Badge.LF]); [exact IH|].
    destruct (split_lines_first t) as (l & ls & rest & E & _).
    rewrite E in *. rewrite join_push, IH. reflexivity.
Qed.

(** X11. Splitting a text into lines and joining the lines again, as the
    updater does when it inserts the version badge, drops every carriage
    return that a line feed follows and changes nothing else; a text
    without such a pair comes back as it was. *)
Theorem split_join_line_endings :
  (forall s, Badge.join (Badge.split_lines s) = normalize_newlines s)
  /\ (forall s, occurs [Badge.CR; Badge.LF] s = false ->
                Badge.join (Badge.split_lines s) = s).
Proof.
  split; [exact join_split_lines|].
  intros s Hfree. rewrite join_split_lines.
  induction s as [|c t IH]; [reflexivity|].
  cbn [normalize_newlines].
  destruct (Ascii.eqb c Badge.CR && startsWith t [Badge.LF]) eqn:E.
  - exfalso. apply andb_true_iff in E as [E1 E2]. apply Ascii.eqb_eq in E1.
    subst c. apply occurs_false_head in Hfree.
    change (startsWith (Badge.CR :: t) [Badge.CR; Badge.LF])
      with (Ascii.eqb Badge.CR Badge.CR && startsWith t [Badge.LF]) in Hfree.
    rewrite E2 in Hfree. discriminate Hfree.
  - f_equal. apply IH. eapply occurs_false_tail. exact Hfree.
Qed.

Lemma split_join_line_endings_witness :
  Badge.join (Badge.split_lines (js "# a" ++ Badge.LF :: js "b"))
  = js "# a" ++ Badge.LF :: js "b".
Proof.
  apply (proj2 split_join_line_endings). reflexivity.
Defined.






(** ** The badge updater: the size shown *)

Section TotalSize.

Variable gzip_length : jstring -> N.

Lemma total_size_from (bundle : list emitted) (start : N) :
  fold_left (fun size chunk =>
               match chunk with
               | Chunk code => (size + gzip_length code)%N
               | Asset => size
               end) bundle start
  = (start + sum_N (chunk_sizes gzip_length bundle))%N.
Proof.
  revert start. induction bundle as [|[code|] bundle IH]; intros start; simpl.
  - lia.
  - rewrite IH. unfold sum_N. lia.
  - apply IH.
Qed.

Lemma total_size_sum (bundle : list emitted) :
  total_size gzip_length bundle = sum_N (chunk_sizes gzip_length bundle).
Proof. unfold total_size. rewrite total_size_from. lia. Qed.

Lemma chunk_sizes_app (a b : list emitted) :
  chunk_sizes gzip_length (a ++ b)
  = chunk_sizes gzip_length a ++ chunk_sizes gzip_length b.
Proof. induction a as [|[code|] a IH]; simpl; [reflexivity | f_equal; exact IH | exact IH]. Qed.

Lemma sum_N_app (a b : list N) : sum_N (a ++ b) = (sum_N a + sum_N b)%N.
Proof. induction a as [|x a IH]; simpl; [reflexivity | rewrite IH; lia]. Qed.

(** X13. The size the badge shows is the sum of the compressed sizes of the
    code chunks: assets add nothing, the bundle of two builds put together
    weighs the sum of the two, and the order in which the bundler lists the
    entries does not matter. *)
Theorem total_size_counts_chunks :
  (forall bundle,
      total_size gzip_length bundle = sum_N (chunk_sizes gzip_length bundle))
  /\ (forall a b,
         total_size gzip_length (a ++ b)
         = (total_size gzip_length a + total_size gzip_length b)%N)
  /\ (forall a b,
         total_size gzip_length (a ++ Asset :: b) = total_size gzip_length (a ++ b))
  /\ (forall a b, Permutation a b ->
                  total_size gzip_length a = total_size gzip_length b).
Proof.
  split; [exact total_size_sum|]. split; [|split].
  - intros a b. rewrite !total_size_sum, chunk_sizes_app, sum_N_app. reflexivity.
  - intros a b. rewrite !total_size_sum, !chunk_sizes_app. reflexivity.
  - intros a b Hp. rewrite !total_size_sum.
    induction Hp as [|x a b _ IH|x y a|a b c _ IH1 _ IH2].
    + reflexivity.
    + destruct x; simpl; [rewrite IH; reflexivity | exact IH].
    + destruct x, y; simpl; lia.
    + congruence.
Qed.

End TotalSize.

Lemma total_size_counts_chunks_witness :
  total_size gzip_identity [Asset; Chunk (js "ab"); Chunk (js "c")]
  = total_size gzip_identity [Chunk (js "c"); Chunk (js "ab"); Asset].
Proof.
  apply (proj2 (proj2 (proj2 (total_size_counts_chunks gzip_identity)))).
  exact (Permutation_rev [Asset; Chunk (js "ab"); Chunk (js "c")]).
Defined.

From Stdlib Require DecimalN DecimalPos.
From Stdlib Require Import ZArith.

Lemma read_decimal_decimal (n : N) : read_decimal (decimal n) = Some n.
Proof.
  unfold read_decimal, decimal. rewrite string_of_list_ascii_of_string.
  rewrite NilZero.usu.
  - simpl. rewrite DecimalN.Unsigned.of_to. reflexivity.
  - destruct n; simpl; [discriminate | apply DecimalPos.Unsigned.to_uint_nonnil].
Qed.

Lemma digit_value_digit (d : N) : (d < 10)%N -> digit_value (digit d) = d.
Proof.
  intros H. unfold digit_value, digit.
  rewrite N_ascii_embedding by lia. lia.
Qed.

(** X14. The size text is the gzip total in units of 1024 bytes rounded to
    the nearest hundredth, a tie going up: the text reads back as a number
    of hundredths [h] with [h - 1/2 <= 100 * size / 1024 < h + 1/2], and a
    larger total never prints a smaller number. *)
Theorem size_text_rounds :
  (forall size,
      exists h,
        read_hundredths (toFixed2_div1024 size) = Some h
        /\ (2048 * h <= 200 * size + 1024 < 2048 * (h + 1))%N)
  /\ (forall size1 size2 h1 h2,
         (size1 <= size2)%N ->
         read_hundredths (toFixed2_div1024 size1) = Some h1 ->
         read_hundredths (toFixed2_div1024 size2) = Some h2 ->
         (h1 <= h2)%N).
Proof.
  assert (Hread : forall size,
             read_hundredths (toFixed2_div1024 size) = Some (hundredths size)).
  { intros size. unfold read_hundredths, toFixed2_div1024.
    fold (hundredths size). set (h := hundredths size).
    rewrite rev_app_distr. cbn [rev app]. rewrite rev_involutive.
    cbn [Ascii.eqb Bool.eqb]. cbn iota.
    rewrite read_decimal_decimal. cbn [option_map].
    rewrite !digit_value_digit.
    - f_equal. zify. Z.to_euclidean_division_equations. lia.
    - apply N.mod_lt. discriminate.
    - apply N.Div0.div_lt_upper_bound. apply N.mod_lt. discriminate. }
  split.
  - intros size. exists (hundredths size). split; [apply Hread|].
    unfold hundredths. zify. Z.to_euclidean_division_equations. lia.
  - intros size1 size2 h1 h2 Hle H1 H2.
    rewrite Hread in H1, H2. injection H1 as <-. injection H2 as <-.
    unfold hundredths. apply N.Div0.div_le_mono. lia.
Qed.

Lemma size_text_rounds_witness :
  read_hundredths (toFixed2_div1024 1229) = Some 120%N
  /\ read_hundredths (toFixed2_div1024 1234) = Some 121%N
  /\ (120 <= 121)%N.
Proof.
  split; [reflexivity|]. split; [reflexivity|].
  apply (proj2 size_text_rounds 1229%N 1234%N 120%N 121%N);
    [lia | reflexivity | reflexivity].
Defined.

(** ** The exposed name: when it is an identifier *)

Lemma lower_to_upper c : is_lower c = true -> is_upper (toUpperCase c) = true.
Proof.
  intros H. unfold toUpperCase. rewrite H. unfold is_lower in H. unfold is_upper.
  apply andb_true_iff in H as [H1 H2].
  apply Nat.leb_le in H1. apply Nat.leb_le in H2.
  rewrite nat_ascii_embedding by lia.
  apply andb_true_iff. split; apply Nat.leb_le; lia.
Qed.

Lemma letter_to_upper c : is_letter c = true -> is_upper (toUpperCase c) = true.
Proof.
  unfold is_letter. intros H. destruct (is_lower c) eqn:E.
  - apply lower_to_upper, E.
  - unfold toUpperCase. rewrite E. exact H.
Qed.

Lemma letter_facts c :
  is_letter c = true ->
  is_separator c = false /\ is_line_terminator c = false
  /\ Ascii.eqb c "/"%char = false.
Proof.
  intros H. unfold is_separator, is_line_terminator.
  assert (Hd : forall x, is_letter x = false -> Ascii.eqb c x = false).
  { intros x Hx. destruct (Ascii.eqb_spec c x) as [->|]; [congruence | reflexivity]. }
  rewrite !Hd by reflexivity. auto.
Qed.

Lemma lower_is_letter c : is_lower c = true -> is_letter c = true.
Proof. unfold is_letter. intros ->. reflexivity. Qed.

Lemma word_name_joined (s : jstring) :
  word_name s = true -> all_letters (replace_separators s) = true.
Proof.
  assert (H : forall n (s : jstring), length s <= n -> word_name s = true ->
                all_letters (replace_separators s) = true).
  { clear s. induction n as [|n IH]; intros [|c [|d t]] Hlen Hw;
      try reflexivity; try (simpl in Hlen; lia).
    - cbn [word_name] in Hw. rewrite andb_false_r, orb_false_r, andb_true_r in Hw.
      cbn [replace_separators all_letters forallb].
      rewrite (lower_is_letter c Hw). reflexivity.
    - cbn [word_name] in Hw. apply andb_true_iff in Hw as [Hc Hdt].
      pose proof Hdt as Hdt'. cbn [word_name] in Hdt'.
      apply andb_true_iff in Hdt' as [_ Ht].
      cbn [replace_separators].
      destruct (is_separator c) eqn:Es.
      + assert (Hl : is_lower d = true).
        { destruct (is_lower c) eqn:El.
          - destruct (letter_facts c (lower_is_letter c El)) as (E & _). congruence.
          - exact Hc. }
        destruct (letter_facts d (lower_is_letter d Hl)) as (_ & -> & _).
        cbn [negb andb all_letters forallb].
        unfold is_letter at 1. rewrite (lower_to_upper d Hl), orb_true_r.
        apply (IH t); [simpl in Hlen; lia | exact Ht].
      + cbn [andb all_letters forallb].
        rewrite orb_false_r in Hc. rewrite (lower_is_letter c Hc).
        apply (IH (d :: t)); [simpl in *; lia | exact Hdt]. }
  apply (H (length s)). lia.
Qed.

Lemma word_name_no_slash (s : jstring) :
  word_name s = true -> slashes s = 0 /\ one_line s = true.
Proof.
  unfold slashes. induction s as [|c t IH]; [auto|].
  cbn [word_name]. intros H. apply andb_true_iff in H as [Hc Ht].
  destruct (IH Ht) as [IH1 IH2].
  assert (Hf : Ascii.eqb c "/"%char = false /\ is_line_terminator c = false).
  { apply orb_true_iff in Hc as [Hc | Hc].
    - destruct (letter_facts c (lower_is_letter c Hc)) as (_ & H1 & H2). auto.
    - apply andb_true_iff in Hc as [Hc _]. unfold is_separator in Hc.
      apply orb_true_iff in Hc as [Hc | Hc]; apply Ascii.eqb_eq in Hc; subst c;
        split; reflexivity. }
  destruct Hf as [H1 H2]. cbn [List.filter one_line forallb].
  rewrite H1, H2. split; [exact IH1 | exact IH2].
Qed.

Lemma after_last_slash_scope (scope w : jstring) :
  slashes w = 0 -> after_last_slash (scope ++ "/"%char :: w) = Some w.
Proof.
  intros Hw. induction scope as [|c scope IH]; simpl.
  - destruct (no_slash_no_split w Hw) as [-> _]. reflexivity.
  - rewrite IH. reflexivity.
Qed.

Lemma one_line_app (a b : jstring) :
  one_line a = true -> one_line b = true -> one_line (a ++ b) = true.
Proof. apply forallb_app_true. Qed.

(** X15. For a package name made of lowercase words joined by ['-'] or
    ['_'], alone or behind a one-line [@scope/], the derived global name
    consists of letters only and begins with a capital letter (so it is a
    valid identifier), and the scope leaves no trace in it. *)
Theorem derived_name_is_identifier (w : jstring) :
  w <> [] ->
  word_name w = true ->
  all_letters (toPascalCase w) = true
  /\ (exists c t, toPascalCase w = c :: t /\ is_upper c = true)
  /\ toPascalCase (replace_scope w) = toPascalCase w
  /\ forall scope,
       one_line scope = true ->
       toPascalCase (replace_scope ("@"%char :: scope ++ "/"%char :: w))
       = toPascalCase w.
Proof.
  intros Hne Hw.
  pose proof (word_name_joined w Hw) as Hj.
  destruct (word_name_no_slash w Hw) as [Hs Hl].
  assert (Hfirst : exists c t, replace_separators w = c :: t).
  { destruct w as [|c [|d t]]; [congruence | simpl; eauto |].
    cbn [replace_separators]. destruct (_ && _); eauto. }
  destruct Hfirst as (c & t & E).
  assert (Hc : is_letter c = true /\ all_letters t = true).
  { rewrite E in Hj. cbn [all_letters forallb] in Hj.
    apply andb_true_iff in Hj. exact Hj. }
  destruct Hc as [Hc Ht].
  destruct (letter_facts c Hc) as (_ & Hlt & _).
  assert (Ep : toPascalCase w = toUpperCase c :: t).
  { unfold toPascalCase. rewrite E. cbn [replace_first]. rewrite Hlt. reflexivity. }
  split; [|split; [|split]].
  - rewrite Ep. cbn [all_letters forallb]. unfold is_letter at 1.
    rewrite (letter_to_upper c Hc), orb_true_r. exact Ht.
  - exists (toUpperCase c), t. split; [exact Ep | apply letter_to_upper, Hc].
  - destruct w as [|x w']; [congruence|]. unfold replace_scope.
    cbn [word_name] in Hw. apply andb_true_iff in Hw as [Hx _].
    assert (Hx' : Ascii.eqb x "@"%char = false).
    { destruct (Ascii.eqb_spec x "@"%char) as [->|]; [|reflexivity].
      vm_compute in Hx. discriminate. }
    destruct x as [[] [] [] [] [] [] [] []]; try reflexivity.
    vm_compute in Hx'. discriminate.
  - intros scope Hsc. unfold replace_scope.
    assert (Hr : one_line (scope ++ "/"%char :: w) = true).
    { apply one_line_app; [exact Hsc|]. cbn [one_line forallb]. exact Hl. }
    rewrite (dot_run_one_line _ Hr), (after_last_slash_scope scope w Hs).
    rewrite skipn_all, app_nil_r. reflexivity.
Qed.

Lemma derived_name_is_identifier_witness :
  all_letters (toPascalCase (js "my-lib_core")) = true
  /\ toPascalCase (replace_scope (js "@scope/my-lib_core"))
     = toPascalCase (js "my-lib_core").
Proof.
  destruct (derived_name_is_identifier (js "my-lib_core")
              ltac:(discriminate) eq_refl) as (H1 & _ & _ & H4).
  split; [exact H1|]. apply (H4 (js "scope")). reflexivity.
Defined.

(** ** The badge updater: replacing the version badge *)

(** A replacement without ['$'] takes the place of the leftmost match and
    leaves the text before and after it as it is. *)
Lemma replace_leftmost (prefix repl content : jstring) :
  no_dollar repl = true ->
  Badge.test prefix content = true ->
  exists before body after,
    content = before ++ (prefix ++ body ++ [")"%char]) ++ after
    /\ body <> [] /\ no_close body = true
    /\ (forall j, j < length before ->
                  Badge.match_at prefix (skipn j content) = None)
    /\ Badge.replace prefix repl content = before ++ repl ++ after.
Proof.
  intros Hd. unfold Badge.test, Badge.replace.
  destruct (Badge.exec prefix content) as [[i n]|] eqn:E; [|discriminate].
  intros _. destruct (exec_Some_inv _ _ _ _ E) as (Hm & Hle & Hbefore).
  destruct (match_at_inv _ _ _ Hm) as (body & rest & Hs & Hne & Hc & ->).
  exists (firstn i content), body, rest.
  assert (Hlen : length (firstn i content) = i) by (rewrite length_firstn; lia).
  split; [|split; [exact Hne | split; [exact Hc | split]]].
  - rewrite <- (firstn_skipn i content) at 1. rewrite Hs, <- !app_assoc.
    reflexivity.
  - intros j Hj. apply Hbefore. lia.
  - rewrite (substitution_plain _ _ _ _ Hd).
    do 2 f_equal. rewrite <- drop_drop, Hs. apply skipn_past_badge.
Qed.

(** X16. When the README already matches the version pattern, the version
    step replaces the leftmost match by the new badge and changes nothing
    else: the text before and after the old badge, line endings included,
    is kept character for character. *)
Theorem version_step_in_place (v content : jstring) :
  plain_version v = true ->
  Badge.test versionPrefix content = true ->
  exists before body after,
    content = before ++ (versionPrefix ++ body ++ [")"%char]) ++ after
    /\ body <> [] /\ no_close body = true
    /\ (forall j, j < length before ->
                  Badge.match_at versionPrefix (skipn j content) = None)
    /\ update_version (versionPrefix ++ v ++ js "-blue)") content
       = before ++ (versionPrefix ++ v ++ js "-blue)") ++ after.
Proof.
  intros Hv Ht.
  destruct (replace_leftmost versionPrefix (versionPrefix ++ v ++ js "-blue)")
              content (vb_no_dollar v Hv) Ht)
    as (before & body & after & Hc & Hne & Hb & Hleft & Hr).
  exists before, body, after. repeat (split; [assumption|]).
  unfold update_version. rewrite Ht. exact Hr.
Qed.

Lemma version_step_in_place_witness :
  exists before body after,
    crlf_readme = before ++ (versionPrefix ++ body ++ [")"%char]) ++ after
    /\ body <> [] /\ no_close body = true
    /\ (forall j, j < length before ->
                  Badge.match_at versionPrefix (skipn j crlf_readme) = None)
    /\ update_version (versionPrefix ++ js "2.0.0" ++ js "-blue)") crlf_readme
       = before ++ (versionPrefix ++ js "2.0.0" ++ js "-blue)") ++ after.
Proof.
  apply (version_step_in_place (js "2.0.0") crlf_readme); reflexivity.
Defined.

(** ** Externality: a name that only begins like a dependency *)

(** X17. A specifier that merely begins with the name of a dependency is
    not external on that account: with [dep] the only external, [dep]
    followed by anything that does not start with ['/'] is bundled (a
    dependency [lodash] does not make [lodash-es] external), while [dep]
    followed by ['/'] and a path is external unless the specifier is
    rooted. *)
Theorem name_prefix_is_not_enough (dep suffix : jstring) :
  suffix <> [] ->
  startsWith suffix (js "/") = false ->
  isExternal [dep] (dep ++ suffix) = false
  /\ forall path, ~ rooted (dep ++ "/"%char :: path) ->
                  isExternal [dep] (dep ++ "/"%char :: path) = true.
Proof.
  intros Hne Hs. split.
  - destruct (isExternal [dep] (dep ++ suffix)) eqn:E; [|reflexivity].
    apply isExternal_iff in E as (_ & d & [<- | []] & [Hd | [rest Hd]]).
    + rewrite <- (app_nil_r dep) in Hd at 2. apply app_inv_head in Hd. congruence.
    + apply app_inv_head in Hd. subst suffix. discriminate Hs.
  - intros path Hr. apply isExternal_iff. split; [exact Hr|].
    exists dep. split; [left; reflexivity|]. right. exists path. reflexivity.
Qed.

Lemma name_prefix_is_not_enough_witness :
  isExternal [js "lodash"] (js "lodash-es") = false
  /\ isExternal [js "lodash"] (js "lodash/fp") = true.
Proof.
  destruct (name_prefix_is_not_enough (js "lodash") (js "-es")
              ltac:(discriminate) eq_refl) as [H1 H2].
  split; [exact H1|]. apply (H2 (js "fp")).
  intros [[r Hr] | [[r Hr] | (c & r & Hr & _)]]; discriminate Hr.
Defined.

(** ** Source maps *)

Lemma outputConfig_sourcemap resolve options dir pkg f o :
  outputConfig resolve options dir pkg f = Ok o ->
  out_sourcemap o = Some (default true (sourcemap options)).
Proof.
  unfold outputConfig.
  destruct (is_esm f); [intros [= <-]; reflexivity|].
  destruct (is_cjs f); [intros [= <-]; reflexivity|].
  destruct (is_umd_or_iife f); [|intros [= <-]; reflexivity].
  destruct (truthy (name options)); simpl.
  - intros [= <-]. reflexivity.
  - destruct (pkg_name pkg); simpl; [|discriminate]. intros [= <-]. reflexivity.
Qed.

(** X18. The [sourcemap] option, on by default, reaches every format
    descriptor twice and consistently: as the source-map flag of its output
    and as the source-map flag of its TypeScript step.  The declaration
    descriptor asks for no source map. *)
Theorem sourcemap_is_consistent resolve JSON_parse options watch fs configs :
  createConfig resolve JSON_parse options watch fs = Ok configs ->
  forall d, In d configs ->
    (out_sourcemap (d_output d) = Some (default true (sourcemap options))
     /\ exists t co,
         In (Typescript t false false (default true (sourcemap options)) co)
            (d_plugins d)
         /\ forall t' dcl dmap sm co',
              In (Typescript t' dcl dmap sm co') (d_plugins d) ->
              sm = default true (sourcemap options))
    \/ (out_sourcemap (d_output d) = None
        /\ exists t, d_plugins d = [DtsPlugin t]).
Proof.
  intros H d Hin.
  apply createConfig_inv in H as (dir & pkg & ds & _ & _ & _ & Hall & ->).
  apply in_app_or in Hin as [Hin | Hin].
  - left. apply (Forall2_In_r _ _ _ _ Hall) in Hin as (f & _ & Hfd).
    apply format_descriptor_inv in Hfd as (_ & Hpl & _ & Ho).
    split; [eapply outputConfig_sourcemap; eassumption|].
    rewrite Hpl, format_plugins_eq. eexists _, _. split.
    + simpl. do 3 right. left. reflexivity.
    + intros t' dcl dmap sm co' Hp.
      destruct (enableBabel options), (default true (minify options)),
        (is_esm f && negb (truthy watch)); simpl in Hp;
        repeat (destruct Hp as [Hp | Hp];
                [try discriminate Hp; injection Hp as _ _ _ <- _; reflexivity|]);
        destruct Hp.
  - right. destruct (generateDts options); [|destruct Hin].
    destruct Hin as [<- | []]. split; [reflexivity | eexists; reflexivity].
Qed.

Lemma sourcemap_is_consistent_witness :
  exists configs,
    createConfig resolve_join parse_demo demo_options None demo_fs = Ok configs
    /\ forall d, In d configs ->
         out_sourcemap (d_output d) = Some true
         \/ out_sourcemap (d_output d) = None.
Proof.
  destruct (createConfig resolve_join parse_demo demo_options None demo_fs)
    as [cs|e] eqn:H; [|vm_compute in H; discriminate].
  exists cs. split; [reflexivity|].
  intros d Hd.
  destruct (sourcemap_is_consistent _ _ _ _ _ _ H d Hd) as [[Hs _] | [Hs _]];
    [left | right]; exact Hs.
Defined.
